(** * gosl/gm/io.go: writing and reading NURBS meshes ([.msh] files)

    A shallow embedding of [HashPoint], [WriteMshD] and [ReadMsh] of
    [gm/io.go], and the properties of the mesh document they exchange.

    Conventions of the embedding.
    - Go's [float64] is Rocq's primitive binary64 [float]; Go's [int] is a
      64-bit two's complement integer, held in a [Z].  The counters [vid] and
      [cid] grow by one per record appended to an in-memory buffer, so they
      stay far below [2^63] and are kept as plain [Z]s.
    - A [map[K]V] is a [gmap K V]; a map argument that may be [nil] is an
      [option (gmap K V)].
    - A slice is a [list]; indexing it out of range is the run-time panic
      [IndexOutOfRange].
    - [utl.Panic] and run-time panics end the call: a function that may panic
      returns a [result].
    - [WriteMshD] prints text with [utl.Ff]; the embedding keeps the values
      that each call prints, as records, in printing order.  Separators and
      column widths are not represented. *)

From Stdlib Require Import ZArith Floats.
From stdpp Require Import base option list list_numbers gmap strings pretty.

Local Open Scope Z_scope.
Set Warnings "-register-all".

(** ** Panics *)

Inductive failure : Type :=
  | ReadFailure (fn : string)      (* utl.Panic(_io_err1, fn, err) *)
  | DecodeFailure (fn : string)    (* utl.Panic(_io_err2, fn, err) *)
  | IndexOutOfRange                (* run-time panic of a slice index *)
  | CollaboratorPanic.             (* a panic raised inside a Nurbs method *)

Inductive result (A : Type) : Type :=
  | Ok (a : A)
  | Panic (e : failure).
Arguments Ok {A} a.
Arguments Panic {A} e.

#[global] Instance result_ret : MRet result := λ A a, Ok a.
#[global] Instance result_bind : MBind result := λ A B f m,
  match m with Ok a => f a | Panic e => Panic e end.
#[global] Instance result_fmap : FMap result := λ A B f m,
  match m with Ok a => Ok (f a) | Panic e => Panic e end.

(** [l[i]] on a slice. *)
Definition index {A} (l : list A) (i : Z) : result A :=
  if decide (0 ≤ i) then
    match l !! Z.to_nat i with Some a => Ok a | None => Panic IndexOutOfRange end
  else Panic IndexOutOfRange.

(** [m[k]] on a map, in the one-result form: the zero value when [k] is
    absent. *)
Definition map_get (m : gmap Z Z) (k : Z) : Z := default 0 (m !! k).

(** [for i, a := range l { s, err = f(s, i, a) }], the index starting at
    [i0]; a panic of the body ends the loop. *)
Fixpoint range_foldM {A S} (f : S → Z → A → result S) (i0 : Z) (l : list A) (s : S)
    : result S :=
  match l with
  | [] => Ok s
  | a :: l' => s' ← f s i0 a; range_foldM f (i0 + 1) l' s'
  end.

(** ** Floating point to [int]

    [int(f)] discards the fraction (truncation towards zero).  When the
    truncated value does not fit the Go specification leaves the result to
    the implementation; the value taken here is the one of amd64
    ([CVTTSD2SQ]), [-2^63], also for NaN and the infinities. *)

Definition int_min : Z := - 2 ^ 63.
Definition int_max : Z := 2 ^ 63 - 1.

Definition trunc (f : float) : option Z :=
  match Prim2SF f with
  | S754_zero _ => Some 0
  | S754_finite s m e =>
      let a := match e with
               | Z0 => Zpos m
               | Zpos k => Z.shiftl (Zpos m) (Zpos k)
               | Zneg k => Z.shiftr (Zpos m) (Zpos k)
               end in
      Some (if s then - a else a)
  | S754_infinity _ | S754_nan => None
  end.

Definition float_to_int (f : float) : Z :=
  match trunc f with
  | Some z => if decide (int_min ≤ z ≤ int_max) then z else int_min
  | None => int_min
  end.

(** ** HashPoint *)

(** [int(x*10001 + y*1000001 + z*100000001)]: the three products are
    rounded, then added from left to right (no fused multiply-add, as the
    compiler does it on amd64). *)
Definition HashPoint (x y z : float) : Z :=
  float_to_int (x * 10001 + y * 1000001 + z * 100000001)%float.

Definition NURBS_GEO : Z := 18.

#[global] Instance float_inhabited : Inhabited float := populate 0%float.

(** ** The geometry collaborator

    [gm.Nurbs] and [gm.Bspline] are declared outside [io.go].  What
    [io.go] uses of them is gathered in an interface. *)

Module Bspline.
(** [o.b[d].T]: the knots along one direction. *)
Record t : Type := mk { T : list float }.
End Bspline.

(** A control point as returned by [GetQ] and [GetQl]: [x[0]], [x[1]],
    [x[2]] and the weight [x[3]]. *)
Record point : Type := Point { x0 : float; x1 : float; x2 : float; x3 : float }.

Definition coords (x : point) : list float := [x0 x; x1 x; x2 x; x3 x].

Module Nurbs.
(** Modelled from the spec: the declaration of [Nurbs] is not in [io.go].
    [gnd], [p], [n] and [b] are the fields [io.go] reads: the geometry
    dimension, the order [p o d] and the number of control points
    [n o d] along direction [d] in [0,1,2] (the spec's lattice extents
    [(n0, n1, n2)]), and the B-splines, one per direction.  [GetQ] and
    [GetQl] evaluate a control point ([[4]float] in the spec) at a lattice
    index and at a local node; [Elements] lists the span tuples of the
    elements and [Enodes] the local nodes of each element.  [Init] and
    [SetControl] are called on a fresh [Nurbs] by [ReadMsh]; being methods
    that may panic they return a [result].  A shape is a [*Nurbs] that is
    not [nil], with three entries in [o.p] and [o.n], whose [GetQ] and
    [GetQl] return four coordinates: [o.n[d]], [o.p[d]] and [x[d]] do not
    panic on it, while [o.b[d]] and [enodes[eid]] may. *)
Class ops (t : Type) : Type := {
  gnd : t → Z;
  p : t → Z → Z;
  n : t → Z → Z;
  b : t → list Bspline.t;
  GetQ : t → Z → Z → Z → point;
  GetQl : t → Z → point;
  Elements : t → list (list Z);
  Enodes : t → list (list Z);
  Init : Z → list Z → list (list float) → result t;
  SetControl : t → list (list float) → list Z → result t;
}.
End Nurbs.

(** ** The document *)

(** [Vert] holds data for a vertex => control point. *)
Module Vert.
Record t : Type := mk {
  Id : Z;           (* id *)
  Tag : Z;          (* tag *)
  C : list float;   (* coordinates (size==4) *)
}.
End Vert.

(** [NurbsD] holds all data required to read/save a Nurbs to/from files. *)
Module NurbsD.
Record t : Type := mk {
  Id : Z;                     (* id of Nurbs *)
  Gnd : Z;                    (* 1: curve, 2:surface, 3:volume *)
  Ords : list Z;              (* order along each x-y-z direction *)
  Knots : list (list float);  (* knots along each x-y-z direction *)
  Ctrls : list Z;             (* global ids of control points *)
}.
End NurbsD.

(** [Data] holds all geometry data. *)
Module Data.
Record t : Type := mk {
  Verts : list Vert.t;
  Nurbss : list NurbsD.t;
}.
End Data.

(** One entry of the ["cells"] list, as [WriteMshD] prints it. *)
Module Cell.
Record t : Type := mk {
  id : Z;
  tag : Z;
  nrb : Z;
  part : Z;
  geo : Z;
  span : list Z;
  verts : list Z;
}.
End Cell.

(** What [WriteMshD] prints: the three lists of the [.msh] file. *)
Module Msh.
Record t : Type := mk {
  verts : list Vert.t;
  nurbss : list NurbsD.t;
  cells : list Cell.t;
}.
End Msh.

(** ** WriteMshD *)

Section Writer.
Context {N : Type} `{!Nurbs.ops N}.

(** The three nested loops over the control points of [o]:
    [for k < o.n[2] { for j < o.n[1] { for i < o.n[0] { ... } } }]. *)
Definition lattice (o : N) : list (Z * Z * Z) :=
  k ← seqZ 0 (Nurbs.n o 2);
  j ← seqZ 0 (Nurbs.n o 1);
  i ← seqZ 0 (Nurbs.n o 0);
  [(i, j, k)].

Definition GetQ3 (o : N) (ijk : Z * Z * Z) : point :=
  let '(i, j, k) := ijk in Nurbs.GetQ o i j k.

Definition hash (x : point) : Z := HashPoint (x0 x) (x1 x) (x2 x).

(** State of the first sweep: the vertices printed so far, the map
    [verts] and the counter [vid]. *)
Record sweep : Type := Sweep {
  printed : list Vert.t;
  verts : gmap Z Z;
  vid : Z;
}.

Definition sweep0 : sweep := Sweep [] ∅ 0.

(** Body of the innermost loop of the first sweep (lines 35-50). *)
Definition visit (vtagged : option (gmap Z Z)) (s : sweep) (x : point) : sweep :=
  let hsh := hash x in
  match verts s !! hsh with
  | Some _ => s
  | None =>
      let tag :=
        match vtagged with
        | Some vt => match vt !! hsh with Some val => val | None => 0 end
        | None => 0
        end in
      Sweep (printed s ++ [Vert.mk (vid s) tag (coords x)])
            (<[hsh := vid s]> (verts s))
            (vid s + 1)
  end.

Definition sweep_shape (vtagged : option (gmap Z Z)) (s : sweep) (o : N) : sweep :=
  foldl (λ s ijk, visit vtagged s (GetQ3 o ijk)) s (lattice o).

Definition sweep_all (vtagged : option (gmap Z Z)) (nurbss : list N) : sweep :=
  foldl (sweep_shape vtagged) sweep0 nurbss.

(** The ["knots"] of a shape: [o.b[d].T] for [d < o.gnd]. *)
Definition knots_of (o : N) : result (list (list float)) :=
  mapM (λ d, bd ← index (Nurbs.b o) d; Ok (Bspline.T bd)) (seqZ 0 (Nurbs.gnd o)).

(** The ["ctrls"] of a shape (lines 76-91). *)
Definition ctrls_of (verts : gmap Z Z) (o : N) : list Z :=
  (λ ijk, map_get verts (hash (GetQ3 o ijk))) <$> lattice o.

(** Body of the loop over the shapes (lines 56-93). *)
Definition write_nurbs (verts : gmap Z Z) (out : list NurbsD.t) (sid : Z) (o : N)
    : result (list NurbsD.t) :=
  ks ← knots_of o;
  Ok (out ++ [NurbsD.mk sid (Nurbs.gnd o)
                [Nurbs.p o 0; Nurbs.p o 1; Nurbs.p o 2] ks (ctrls_of verts o)]).

(** The key of a cell in [ctagged]: [utl.Sf("%d_%d", sid, eid)]. *)
Definition cell_key (sid eid : Z) : string := pretty sid +:+ "_" +:+ pretty eid.

(** Body of the loop over the elements of a shape (lines 99-128); the
    state is the counter [cid] and the cells printed so far. *)
Definition write_cell (verts : gmap Z Z) (ctagged : option (gmap string Z))
    (sid : Z) (o : N) (enodes : list (list Z))
    (s : Z * list Cell.t) (eid : Z) (e : list Z) : result (Z * list Cell.t) :=
  let '(cid, out) := s in
  let tag :=
    match ctagged with
    | Some ct => match ct !! cell_key sid eid with Some val => val | None => -1 end
    | None => -1
    end in
  en ← index enodes eid;
  let vs := (λ l, map_get verts (hash (Nurbs.GetQl o l))) <$> en in
  Ok (cid + 1, out ++ [Cell.mk cid tag sid 0 NURBS_GEO e vs]).

Definition write_cells (verts : gmap Z Z) (ctagged : option (gmap string Z))
    (s : Z * list Cell.t) (sid : Z) (o : N) : result (Z * list Cell.t) :=
  let elems := Nurbs.Elements o in
  let enodes := Nurbs.Enodes o in
  range_foldM (write_cell verts ctagged sid o enodes) 0 elems s.

(** [WriteMshD]: the text handed to [utl.WriteFileVD], as the records it
    lists.  [dirout] and [fnk] only name the file. *)
Definition WriteMshD (dirout fnk : string) (nurbss : list N)
    (vtagged : option (gmap Z Z)) (ctagged : option (gmap string Z)) : result Msh.t :=
  let s := sweep_all vtagged nurbss in
  ns ← range_foldM (write_nurbs (verts s)) 0 nurbss [];
  cs ← range_foldM (write_cells (verts s) ctagged) 0 nurbss (0, []);
  Ok (Msh.mk (printed s) ns cs.2).

End Writer.

(** ** The text of a [.msh] file

    [encoding/json] and [strconv] are Go's; what [ReadMsh] relies on is
    modelled on the parsed text.  A number token is either [JInt z], an
    integer literal that fits an [int] ([%d] prints those), or [JNegZero],
    the integer literal [-0], which is [0] as an [int] and [-0] as a
    [float64], or [JReal f], any other number literal, kept as the
    [float64] that [strconv.ParseFloat] gives for it, an infinity when it is
    out of range. *)

Inductive jnum : Type :=
  | JInt (z : Z)
  | JNegZero
  | JReal (f : float).

Inductive json : Type :=
  | JNull
  | JBool (b : bool)
  | JNum (x : jnum)
  | JStr (s : string)
  | JArr (l : list json)
  | JObj (l : list (string * json)).

(** The bytes of a file: the text of a JSON value, or anything else. *)
Inductive content : Type :=
  | Text (v : json)
  | Garbage.

Definition Z_to_float (z : Z) : float := SF2Prim (binary_normalize prec emax z 0 false).

(** ** json.Unmarshal into [Data]

    As documented for [encoding/json]: [null] leaves the destination at its
    zero value; an object key is matched to a struct field without regard to
    case (Unicode simple folding: besides the ASCII letters, U+017F folds to
    [s] and U+212A to [k]); keys that match no field are skipped; a field
    with no key keeps its zero value; a value of the wrong kind is an error.
    When several keys of an object match one field each value is decoded in
    turn, an error in any of them is an error, and the last one decides the
    value (that Go decodes the later value into what the earlier one left is
    not represented).  [None] is a non-nil [err]. *)

Definition lower (c : Ascii.ascii) : Ascii.ascii :=
  let k := Ascii.N_of_ascii c in
  if decide (65 ≤ k ≤ 90)%N then Ascii.ascii_of_N (k + 32) else c.

Definition byte_is (c : Ascii.ascii) (k : N) : bool :=
  bool_decide (Ascii.N_of_ascii c = k).

Fixpoint fold_case (s : string) : string :=
  match s with
  | EmptyString => EmptyString
  | String c r1 =>
      match r1 with
      | String c2 r2 =>
          if byte_is c 197 && byte_is c2 191 then String (Ascii.ascii_of_N 115) (fold_case r2)
          else
            match r2 with
            | String c3 r3 =>
                if byte_is c 226 && byte_is c2 132 && byte_is c3 170
                then String (Ascii.ascii_of_N 107) (fold_case r3)
                else String (lower c) (fold_case r1)
            | EmptyString => String (lower c) (fold_case r1)
            end
      | EmptyString => String (lower c) EmptyString
      end
  end.

Definition matches (field key : string) : bool :=
  bool_decide (fold_case field = fold_case key).

(** The values of the keys of [o] that match [field], in the order of the
    text. *)
Definition field_values (field : string) (o : list (string * json)) : list json :=
  (filter (λ kv, matches field kv.1 = true) o).*2.

Definition decode_field {A} (dec : json → option A) (zero : A)
    (field : string) (o : list (string * json)) : option A :=
  foldl (λ acc v, _ ← acc; dec v) (Some zero) (field_values field o).

Definition decode_int (v : json) : option Z :=
  match v with
  | JNull => Some 0
  | JNum (JInt z) => Some z
  | JNum JNegZero => Some 0
  | _ => None
  end.

Definition decode_float64 (v : json) : option float :=
  match v with
  | JNull => Some 0%float
  | JNum (JInt z) => Some (Z_to_float z)
  | JNum JNegZero => Some neg_zero
  | JNum (JReal f) => if is_finite f then Some f else None
  | _ => None
  end.

Definition decode_slice {A} (dec : json → option A) (v : json) : option (list A) :=
  match v with
  | JNull => Some []
  | JArr l => mapM dec l
  | _ => None
  end.

Definition decode_Vert (v : json) : option Vert.t :=
  match v with
  | JNull => Some (Vert.mk 0 0 [])
  | JObj o =>
      id ← decode_field decode_int 0 "Id" o;
      tag ← decode_field decode_int 0 "Tag" o;
      c ← decode_field (decode_slice decode_float64) [] "C" o;
      Some (Vert.mk id tag c)
  | _ => None
  end.

Definition decode_NurbsD (v : json) : option NurbsD.t :=
  match v with
  | JNull => Some (NurbsD.mk 0 0 [] [] [])
  | JObj o =>
      id ← decode_field decode_int 0 "Id" o;
      gnd ← decode_field decode_int 0 "Gnd" o;
      ords ← decode_field (decode_slice decode_int) [] "Ords" o;
      knots ← decode_field (decode_slice (decode_slice decode_float64)) [] "Knots" o;
      ctrls ← decode_field (decode_slice decode_int) [] "Ctrls" o;
      Some (NurbsD.mk id gnd ords knots ctrls)
  | _ => None
  end.

Definition decode_Data (v : json) : option Data.t :=
  match v with
  | JNull => Some (Data.mk [] [])
  | JObj o =>
      vs ← decode_field (decode_slice decode_Vert) [] "Verts" o;
      ns ← decode_field (decode_slice decode_NurbsD) [] "Nurbss" o;
      Some (Data.mk vs ns)
  | _ => None
  end.

Definition Unmarshal (buf : content) : option Data.t :=
  match buf with
  | Text v => decode_Data v
  | Garbage => None
  end.

(** ** ReadMsh *)

Section Reader.
Context {N : Type} `{!Nurbs.ops N}.

(** [verts[i] = make([]float64, 4); for j < 4 { verts[i][j] = dat.Verts[i].C[j] }] *)
Definition vertex_row (v : Vert.t) : result (list float) :=
  mapM (λ j, index (Vert.C v) j) (seqZ 0 4).

(** [nurbss[i] = new(Nurbs); nurbss[i].Init(...); nurbss[i].SetControl(...)] *)
Definition read_nurbs (verts : list (list float)) (v : NurbsD.t) : result N :=
  o ← Nurbs.Init (NurbsD.Gnd v) (NurbsD.Ords v) (NurbsD.Knots v);
  Nurbs.SetControl o verts (NurbsD.Ctrls v).

(** What [ReadMsh] does once [dat] is decoded (lines 173-189). *)
Definition read_data (dat : Data.t) : result (list N) :=
  verts ← mapM vertex_row (Data.Verts dat);
  mapM (read_nurbs verts) (Data.Nurbss dat).

(** [ReadMsh]; [ReadFile] is [utl.ReadFile] on the files that exist. *)
Definition ReadMsh (ReadFile : string → option content) (fnk : string)
    : result (list N) :=
  let fn := fnk +:+ ".msh" in
  match ReadFile fn with
  | None => Panic (ReadFailure fn)
  | Some buf =>
      match Unmarshal buf with
      | None => Panic (DecodeFailure fn)
      | Some dat => read_data dat
      end
  end.

End Reader.

(** ** The text that WriteMshD prints

    [%d] prints an integer literal.  [%24.17e] prints a finite [float64]
    with 18 significant digits, which [strconv.ParseFloat] reads back as the
    same [float64]; NaN and the infinities print as [NaN], [+Inf] and
    [-Inf], which are not JSON. *)

Definition jint (z : Z) : json := JNum (JInt z).
Definition jfloat (f : float) : json := JNum (JReal f).

Definition Vert_json (v : Vert.t) : json :=
  JObj [("id", jint (Vert.Id v)); ("tag", jint (Vert.Tag v));
        ("c", JArr (jfloat <$> Vert.C v))].

Definition NurbsD_json (v : NurbsD.t) : json :=
  JObj [("id", jint (NurbsD.Id v)); ("gnd", jint (NurbsD.Gnd v));
        ("ords", JArr (jint <$> NurbsD.Ords v));
        ("knots", JArr ((λ ks, JArr (jfloat <$> ks)) <$> NurbsD.Knots v));
        ("ctrls", JArr (jint <$> NurbsD.Ctrls v))].

Definition Cell_json (c : Cell.t) : json :=
  JObj [("id", jint (Cell.id c)); ("tag", jint (Cell.tag c));
        ("nrb", jint (Cell.nrb c)); ("part", jint (Cell.part c));
        ("geo", jint (Cell.geo c));
        ("span", JArr (jint <$> Cell.span c));
        ("verts", JArr (jint <$> Cell.verts c))].

Definition Msh_json (m : Msh.t) : json :=
  JObj [("verts", JArr (Vert_json <$> Msh.verts m));
        ("nurbss", JArr (NurbsD_json <$> Msh.nurbss m));
        ("cells", JArr (Cell_json <$> Msh.cells m))].

Definition all_finite (l : list float) : bool := forallb is_finite l.

Definition Msh_finite (m : Msh.t) : bool :=
  forallb (λ v, all_finite (Vert.C v)) (Msh.verts m)
  && forallb (λ v, forallb all_finite (NurbsD.Knots v)) (Msh.nurbss m).

Definition Msh_text (m : Msh.t) : content :=
  if Msh_finite m then Text (Msh_json m) else Garbage.

(** ** Sample files *)

(** [{"verts":[{"id":0,"tag":0,"c":[1,2]}]}]: a vertex with two coordinates. *)
Definition short_vertex_file : json :=
  JObj [("verts", JArr [JObj [("id", jint 0); ("tag", jint 0);
                              ("c", JArr [jint 1; jint 2])]])].

(** [{"verts":[]}]: no ["nurbss"] field. *)
Definition no_nurbss_file : json := JObj [("verts", JArr [])].

(** ** A collaborator

    Modelled from the spec: [Nurbs] itself is outside [io.go].  A shape
    keeps the arguments of [Init] and of [SetControl]: "construct a shape
    from dimension, per-axis order, per-axis knot vector" and "bind a control
    lattice by global ids into a flat table", the control ids being "ordered
    with the first lattice axis varying fastest and the last axis varying
    slowest".  The lattice extent along a direction is the number of basis
    functions of its B-spline, [len(T) - p - 1], and [1] along the
    directions beyond [gnd].  The element tables, an "opaque capability" in
    the spec, are carried as data. *)

Module Lattice.

Record t : Type := mk {
  gnd : Z;
  p : list Z;
  n : list Z;
  b : list Bspline.t;
  verts : list (list float);
  ctrls : list Z;
  elems : list (list Z);
  enodes : list (list Z);
}.

Definition at_ (l : list Z) (d : Z) : Z :=
  if decide (0 ≤ d) then l !!! Z.to_nat d else 0.

Definition row_point (r : list float) : point :=
  Point (r !!! 0%nat) (r !!! 1%nat) (r !!! 2%nat) (r !!! 3%nat).

(** The control point at the flat lattice index [l]. *)
Definition GetQl (o : t) (l : Z) : point :=
  row_point (if decide (0 ≤ l)
             then verts o !!! Z.to_nat (at_ (ctrls o) l) else []).

Definition GetQ (o : t) (i j k : Z) : point :=
  GetQl o (i + at_ (n o) 0 * (j + at_ (n o) 1 * k)).

Definition NumBasis (ks : list float) (ord : Z) : Z := Z.of_nat (length ks) - ord - 1.

Definition Init (g : Z) (ords : list Z) (ks : list (list float)) : result t :=
  if decide (1 ≤ g ≤ 3 ∧ g ≤ Z.of_nat (length ords) ∧ g ≤ Z.of_nat (length ks)) then
    let dirs := seqZ 0 3 in
    let p := (λ d, if decide (d < g) then at_ ords d else 0) <$> dirs in
    let n := (λ d, if decide (d < g)
                   then NumBasis (ks !!! Z.to_nat d) (at_ ords d) else 1) <$> dirs in
    Ok (mk g p n (Bspline.mk <$> take (Z.to_nat g) ks) [] [] [] [])
  else Panic CollaboratorPanic.

Definition bound (tbl : list (list float)) (c : Z) : bool :=
  bool_decide (0 ≤ c)
  && match tbl !! Z.to_nat c with
     | Some r => bool_decide (length r = 4%nat)
     | None => false
     end.

Definition SetControl (o : t) (tbl : list (list float)) (cs : list Z) : result t :=
  if bool_decide (Z.of_nat (length cs) = at_ (n o) 0 * at_ (n o) 1 * at_ (n o) 2)
     && forallb (bound tbl) cs
  then Ok (mk (gnd o) (p o) (n o) (b o) tbl cs (elems o) (enodes o))
  else Panic CollaboratorPanic.

#[global] Instance ops : Nurbs.ops t := {|
  Nurbs.gnd := gnd;
  Nurbs.p o := at_ (p o);
  Nurbs.n o := at_ (n o);
  Nurbs.b := b;
  Nurbs.GetQ := GetQ;
  Nurbs.GetQl := GetQl;
  Nurbs.Elements := elems;
  Nurbs.Enodes := enodes;
  Nurbs.Init := Init;
  Nurbs.SetControl := SetControl;
|}.

End Lattice.

(** ** Notions used by the statements *)

Section Notions.
Context {N : Type} `{!Nurbs.ops N}.

(** All control points, in the order in which the first sweep visits them. *)
Definition all_points (nurbss : list N) : list point :=
  o ← nurbss; GetQ3 o <$> lattice o.

(** The key of a printed vertex: [HashPoint] of its first three coordinates. *)
Definition Vert_key (v : Vert.t) : Z :=
  match Vert.C v with
  | a :: b :: c :: _ => HashPoint a b c
  | _ => 0
  end.

(** The distinct keys of a sequence of keys, in the order of their first
    occurrence, after those already [seen]. *)
Fixpoint discover (seen : list Z) (ks : list Z) : list Z :=
  match ks with
  | [] => seen
  | k :: ks' => if decide (k ∈ seen) then discover seen ks' else discover (seen ++ [k]) ks'
  end.

Definition vertex_tag (vtagged : option (gmap Z Z)) (h : Z) : Z :=
  match vtagged with
  | Some vt => default 0 (vt !! h)
  | None => 0
  end.

Definition cell_tag (ctagged : option (gmap string Z)) (sid eid : Z) : Z :=
  match ctagged with
  | Some ct => default (-1) (ct !! cell_key sid eid)
  | None => -1
  end.

(** The key as the spec words it: an affine combination [x*K1 + y*K2 + z*K3]
    of the coordinates, truncated to an integer. *)
Definition PointKeyer (K1 K2 K3 : float) (x y z : float) : Z :=
  float_to_int (x * K1 + y * K2 + z * K3)%float.

(** The innermost loop: [i] runs over [0 .. n0-1] with [j], [k] fixed. *)
Definition row (n0 j k : Z) : list (Z * Z * Z) := i ← seqZ 0 n0; [(i, j, k)].
(** The two inner loops: [j] over [0 .. n1-1] around [row]. *)
Definition plane (n0 n1 k : Z) : list (Z * Z * Z) := j ← seqZ 0 n1; row n0 j k.

(** Where the lattice index [(i, j, k)] stands in the traversal. *)
Definition position (o : N) (i j k : Z) : nat :=
  Z.to_nat (i + Nurbs.n o 0 * (j + Nurbs.n o 1 * k)).

(** Number of elements of the shapes of a list. *)
Definition element_count (nurbss : list N) : nat :=
  sum_list_with (λ o, length (Nurbs.Elements o)) nurbss.

(** The place of element [eid] of the [k]-th shape among the cells. *)
Definition cell_place (nurbss : list N) (k eid : nat) : nat :=
  (element_count (take k nurbss) + eid)%nat.

(** The entry of shape [o], the [sid]-th one, in the ["nurbss"] list. *)
Definition NurbsD_of (verts : gmap Z Z) (sid : Z) (o : N) (ks : list (list float))
    : NurbsD.t :=
  NurbsD.mk sid (Nurbs.gnd o) [Nurbs.p o 0; Nurbs.p o 1; Nurbs.p o 2] ks
            (ctrls_of verts o).

(** The entry of element [eid] of shape [sid] in the ["cells"] list. *)
Definition Cell_of (verts : gmap Z Z) (ctagged : option (gmap string Z))
    (sid : Z) (o : N) (cid eid : Z) (e en : list Z) : Cell.t :=
  Cell.mk cid (cell_tag ctagged sid eid) sid 0 NURBS_GEO e
          ((λ l, map_get verts (hash (Nurbs.GetQl o l))) <$> en).

(** What holds of the state of the first sweep after the points [xs]. *)
Record swept (vt : option (gmap Z Z)) (xs : list point) (s : sweep) : Prop := {
  swept_vid : vid s = Z.of_nat (length (printed s));
  swept_ids : ∀ i v, printed s !! i = Some v → Vert.Id v = Z.of_nat i;
  swept_map : ∀ h c, verts s !! h = Some c ↔
                ∃ i v, c = Z.of_nat i ∧ printed s !! i = Some v ∧ Vert_key v = h;
  swept_keys : Vert_key <$> printed s = discover [] (hash <$> xs);
  swept_from : ∀ v, v ∈ printed s →
                ∃ x, x ∈ xs ∧ v = Vert.mk (Vert.Id v) (vertex_tag vt (hash x)) (coords x);
}.


(** What the round trip asks of the collaborator, from the spec's
    description of its interface: [Init] "constructs a shape from dimension,
    per-axis order, per-axis knot vector", and [SetControl] "binds a control
    lattice by global ids into a flat table", the ids "ordered with the first
    lattice axis varying fastest and the last axis varying slowest";
    [SetControl] accepts a list of [n0*n1*n2] ids that all index rows of four
    coordinates. *)
Class laws : Prop := {
  Init_shape g ords ks o :
    Nurbs.Init g ords ks = Ok o →
    Nurbs.gnd o = g
    ∧ ∀ d, 0 ≤ d < g →
        ∃ bd, ords !! Z.to_nat d = Some (Nurbs.p o d)
              ∧ Nurbs.b o !! Z.to_nat d = Some bd
              ∧ ks !! Z.to_nat d = Some (Bspline.T bd);
  SetControl_shape o tbl cs o' :
    Nurbs.SetControl o tbl cs = Ok o' →
    Nurbs.gnd o' = Nurbs.gnd o ∧ Nurbs.b o' = Nurbs.b o
    ∧ (∀ d, Nurbs.p o' d = Nurbs.p o d) ∧ (∀ d, Nurbs.n o' d = Nurbs.n o d);
  SetControl_binds o tbl cs o' i j k :
    Nurbs.SetControl o tbl cs = Ok o' →
    0 ≤ i < Nurbs.n o 0 → 0 ≤ j < Nurbs.n o 1 → 0 ≤ k < Nurbs.n o 2 →
    ∃ c, cs !! position o i j k = Some c ∧ 0 ≤ c
         ∧ tbl !! Z.to_nat c = Some (coords (Nurbs.GetQ o' i j k));
  SetControl_total o tbl cs :
    Z.of_nat (length cs) = Nurbs.n o 0 * Nurbs.n o 1 * Nurbs.n o 2 →
    Forall (λ c, 0 ≤ c ∧ ∃ r, tbl !! Z.to_nat c = Some r ∧ length r = 4%nat) cs →
    ∃ o', Nurbs.SetControl o tbl cs = Ok o';
}.

(** The lattice extents of [o] are counts, and they are the ones that [Init]
    derives from the dimension, orders and knots of [o]. *)
Definition rebuildable (o : N) : Prop :=
  (∀ d, 0 ≤ d < 3 → 0 ≤ Nurbs.n o d)
  ∧ ∃ ks o0, knots_of o = Ok ks
      ∧ Nurbs.Init (Nurbs.gnd o) [Nurbs.p o 0; Nurbs.p o 1; Nurbs.p o 2] ks = Ok o0
      ∧ ∀ d, 0 ≤ d < 3 → Nurbs.n o0 d = Nurbs.n o d.

(** [o'] has the dimension, orders, knots, extents and control points of
    [o]. *)
Definition same_shape (o o' : N) : Prop :=
  Nurbs.gnd o' = Nurbs.gnd o
  ∧ (∀ d, 0 ≤ d < Nurbs.gnd o → Nurbs.p o' d = Nurbs.p o d)
  ∧ knots_of o' = knots_of o
  ∧ (∀ d, 0 ≤ d < 3 → Nurbs.n o' d = Nurbs.n o d)
  ∧ ∀ i j k, 0 ≤ i < Nurbs.n o 0 → 0 ≤ j < Nurbs.n o 1 → 0 ≤ k < Nurbs.n o 2 →
      Nurbs.GetQ o' i j k = Nurbs.GetQ o i j k.

(** Control points with the same key are the same point. *)
Definition keys_separate (nurbss : list N) : Prop :=
  ∀ x y, x ∈ all_points nurbss → y ∈ all_points nurbss → hash x = hash y → x = y.

End Notions.

(** ** Sample shapes *)

Definition unit_knots : list float := [0; 0; 1; 1]%float.

(** Two straight segments of order 1 that share the point [(1, 0, 0)]. *)
Definition segment_a : Lattice.t :=
  Lattice.mk 1 [1; 0; 0] [2; 1; 1] [Bspline.mk unit_knots]
    [[0; 0; 0; 1]; [1; 0; 0; 1]]%float [0; 1] [[1; 2]] [[0; 1]].

Definition segment_b : Lattice.t :=
  Lattice.mk 1 [1; 0; 0] [2; 1; 1] [Bspline.mk unit_knots]
    [[1; 0; 0; 1]; [1; 1; 0; 1]]%float [0; 1] [[1; 2]] [[0; 1]].

Definition segments : list Lattice.t := [segment_a; segment_b].

(** The shared point, of key [10001], is tagged [7]; the element of the
    second segment is tagged [5]. *)
Definition segment_vtags : gmap Z Z := {[ 10001 := 7 ]}.
Definition segment_ctags : gmap string Z := {[ "1_0" := 5 ]}.

Definition segments_doc : Msh.t :=
  Msh.mk
    [Vert.mk 0 0 [0; 0; 0; 1]%float; Vert.mk 1 7 [1; 0; 0; 1]%float;
     Vert.mk 2 0 [1; 1; 0; 1]%float]
    [NurbsD.mk 0 1 [1; 0; 0] [unit_knots] [0; 1];
     NurbsD.mk 1 1 [1; 0; 0] [unit_knots] [1; 2]]
    [Cell.mk 0 (-1) 0 0 18 [1; 2] [0; 1]; Cell.mk 1 5 1 0 18 [1; 2] [1; 2]].

Definition segments_file (fn : string) : option content :=
  if decide (fn = "segments.msh") then Some (Msh_text segments_doc) else None.

(** A segment from [(0, 0, 0)] to [(2^-14, 0, 0)]: both ends have key [0]. *)
Definition short_segment : Lattice.t :=
  Lattice.mk 1 [1; 0; 0] [2; 1; 1] [Bspline.mk unit_knots]
    [[0; 0; 0; 1]; [0x1p-14; 0; 0; 1]]%float [0; 1] [[1; 2]] [[0; 1]].

Definition short_doc : Msh.t :=
  Msh.mk [Vert.mk 0 0 [0; 0; 0; 1]%float]
         [NurbsD.mk 0 1 [1; 0; 0] [unit_knots] [0; 0]]
         [Cell.mk 0 (-1) 0 0 18 [1; 2] [0; 0]].

Definition short_file (fn : string) : option content :=
  if decide (fn = "short.msh") then Some (Msh_text short_doc) else None.

(** What [ReadMsh] makes of [short_doc]. *)
Definition short_read : Lattice.t :=
  Lattice.mk 1 [1; 0; 0] [2; 1; 1] [Bspline.mk unit_knots]
    [[0; 0; 0; 1]]%float [0; 0] [] [].

(** A file whose vertex ids are [2] and [0]; the segment refers to id [0]
    twice. *)
Definition gap_doc : Msh.t :=
  Msh.mk [Vert.mk 2 0 [5; 0; 0; 1]%float; Vert.mk 0 0 [7; 0; 0; 1]%float]
         [NurbsD.mk 0 1 [1; 0; 0] [unit_knots] [0; 0]] [].

Definition gap_file (fn : string) : option content :=
  if decide (fn = "gap.msh") then Some (Msh_text gap_doc) else None.

Definition gap_read : Lattice.t :=
  Lattice.mk 1 [1; 0; 0] [2; 1; 1] [Bspline.mk unit_knots]
    [[5; 0; 0; 1]; [7; 0; 0; 1]]%float [0; 0] [] [].

Definition no_nurbss_files (fn : string) : option content :=
  if decide (fn = "mesh.msh") then Some (Text no_nurbss_file) else None.

Definition short_vertex_files (fn : string) : option content :=
  if decide (fn = "mesh.msh") then Some (Text short_vertex_file) else None.

(** ** Notions used by further properties *)

Section MoreNotions.
Context {N : Type} `{!Nurbs.ops N}.

(** The first point of [xs] whose key is [h]. *)
Definition first_with_key (h : Z) (xs : list point) : option point :=
  head (filter (λ x, hash x = h) xs).

(** A shape that [WriteMshD] can print: a B-spline for each of its [gnd]
    directions, a list of local nodes for each of its elements. *)
Definition writable (o : N) : Prop :=
  Nurbs.gnd o ≤ Z.of_nat (length (Nurbs.b o))
  ∧ (length (Nurbs.Elements o) ≤ length (Nurbs.Enodes o))%nat.

(** A vertex and a cell without their tags. *)
Definition Vert_untagged (v : Vert.t) : Z * list float := (Vert.Id v, Vert.C v).

Definition Cell_untagged (c : Cell.t) : Z * Z * Z * Z * list Z * list Z :=
  (Cell.id c, Cell.nrb c, Cell.part c, Cell.geo c, Cell.span c, Cell.verts c).

(** A cell without its vertex ids. *)
Definition Cell_frame (c : Cell.t) : Z * Z * Z * Z * Z * list Z :=
  (Cell.id c, Cell.tag c, Cell.nrb c, Cell.part c, Cell.geo c, Cell.span c).

(** What [ReadMsh] builds from one entry of ["nurbss"], given the table. *)
Definition built (tbl : list (list float)) (d : NurbsD.t) (o' : N) : Prop :=
  ∃ o0, Nurbs.Init (NurbsD.Gnd d) (NurbsD.Ords d) (NurbsD.Knots d) = Ok o0
        ∧ Nurbs.SetControl o0 tbl (NurbsD.Ctrls d) = Ok o'.

End MoreNotions.

(** A string without the character ["_"]. *)
Fixpoint plain (s : string) : bool :=
  match s with
  | EmptyString => true
  | String c r => negb (byte_is c 95) && plain r
  end.

(** A table that tags element [eid] of shape [sid] alone. *)
Definition one_cell_tag (sid eid tag : Z) : option (gmap string Z) :=
  Some {[ cell_key sid eid := tag ]}.

(** ** More sample shapes *)

(** A segment with two elements and the local nodes of one only. *)
Definition torn_segment : Lattice.t :=
  Lattice.mk 1 [1; 0; 0] [2; 1; 1] [Bspline.mk unit_knots]
    [[0; 0; 0; 1]; [1; 0; 0; 1]]%float [0; 1] [[1; 2]; [2; 3]] [[0; 1]].

(** A segment whose element has a third local node, bound to a row of the
    table that no lattice index refers to. *)
Definition stray_segment : Lattice.t :=
  Lattice.mk 1 [1; 0; 0] [2; 1; 1] [Bspline.mk unit_knots]
    [[3; 0; 0; 1]; [4; 0; 0; 1]; [9; 0; 0; 1]]%float [0; 1; 2] [[1; 2]] [[0; 1; 2]].

Definition stray_doc : Msh.t :=
  Msh.mk [Vert.mk 0 0 [3; 0; 0; 1]%float; Vert.mk 1 0 [4; 0; 0; 1]%float]
         [NurbsD.mk 0 1 [1; 0; 0] [unit_knots] [0; 1]]
         [Cell.mk 0 (-1) 0 0 18 [1; 2] [0; 1; 0]].

(** A segment between two points with a NaN coordinate. *)
Definition nan_segment : Lattice.t :=
  Lattice.mk 1 [1; 0; 0] [2; 1; 1] [Bspline.mk unit_knots]
    [[nan; 0; 0; 1]; [0; nan; 0; 1]]%float [0; 1] [[1; 2]] [[0; 1]].

Definition nan_doc : Msh.t :=
  Msh.mk [Vert.mk 0 0 [nan; 0; 0; 1]%float]
         [NurbsD.mk 0 1 [1; 0; 0] [unit_knots] [0; 0]]
         [Cell.mk 0 (-1) 0 0 18 [1; 2] [0; 0]].

(** The file of the two segments, and the same without its cells. *)
Definition segments_json_no_cells : list (string * json) :=
  [("verts", JArr (Vert_json <$> Msh.verts segments_doc));
   ("nurbss", JArr (NurbsD_json <$> Msh.nurbss segments_doc))].

Definition segments_file_no_cells (fn : string) : option content :=
  if decide (fn = "segments.msh") then Some (Text (JObj segments_json_no_cells))
  else None.

(** A segment with lattice extent [0] along the first direction. *)
Definition void_segment : Lattice.t :=
  Lattice.mk 1 [1; 0; 0] [0; 1; 1] [Bspline.mk unit_knots] [] [] [] [].

(** A segment with an infinite knot. *)
Definition open_segment : Lattice.t :=
  Lattice.mk 1 [1; 0; 0] [2; 1; 1] [Bspline.mk [0; 0; 1; infinity]%float]
    [[0; 0; 0; 1]; [1; 0; 0; 1]]%float [0; 1] [[1; 2]] [[0; 1]].

Definition open_doc : Msh.t :=
  Msh.mk [Vert.mk 0 0 [0; 0; 0; 1]%float; Vert.mk 1 0 [1; 0; 0; 1]%float]
         [NurbsD.mk 0 1 [1; 0; 0] [[0; 0; 1; infinity]%float] [0; 1]]
         [Cell.mk 0 (-1) 0 0 18 [1; 2] [0; 1]].

Definition open_file (fn : string) : option content :=
  if decide (fn = "open.msh") then Some (Msh_text open_doc) else None.

(** * Properties *)

(** ** The first sweep *)

Section Sweep.
Context {N : Type} `{!Nurbs.ops N}.
Implicit Types (s : sweep) (x : point) (xs : list point) (o : N).

Lemma discover_snoc seen ks k :
  discover seen (ks ++ [k]) =
    if decide (k ∈ discover seen ks) then discover seen ks else discover seen ks ++ [k].
Proof.
  revert seen. induction ks as [|k' ks IH]; intros seen; simpl.
  - by destruct (decide (k ∈ seen)).
  - destruct (decide (k' ∈ seen)); apply IH.
Qed.

Lemma discover_NoDup seen ks : NoDup seen → NoDup (discover seen ks).
Proof.
  revert seen. induction ks as [|k ks IH]; intros seen Hs; simpl; [done|].
  destruct (decide (k ∈ seen)); apply IH; [done|].
  apply NoDup_app. split_and!; [done| |apply NoDup_singleton].
  intros y Hy ->%list_elem_of_singleton. done.
Qed.

Lemma discover_elem seen ks k : k ∈ discover seen ks ↔ k ∈ seen ∨ k ∈ ks.
Proof.
  revert seen. induction ks as [|k' ks IH]; intros seen; simpl.
  - rewrite elem_of_nil. tauto.
  - destruct (decide (k' ∈ seen)) as [Hin|Hin]; rewrite IH.
    + rewrite elem_of_cons. split; [tauto|]. intros [?|[->|?]]; tauto.
    + rewrite elem_of_app, !elem_of_cons, elem_of_nil. tauto.
Qed.

Lemma sweep_shape_points vt s o :
  sweep_shape vt s o = foldl (visit vt) s (GetQ3 o <$> lattice o).
Proof. unfold sweep_shape. by rewrite foldl_fmap. Qed.

Lemma sweep_from_points vt s nurbss :
  foldl (sweep_shape vt) s nurbss = foldl (visit vt) s (all_points nurbss).
Proof.
  unfold all_points. revert s.
  induction nurbss as [|o os IH]; intros s; [done|].
  rewrite bind_cons, foldl_app. simpl. by rewrite IH, sweep_shape_points.
Qed.

Lemma sweep_all_points vt nurbss :
  sweep_all vt nurbss = foldl (visit vt) sweep0 (all_points nurbss).
Proof. apply sweep_from_points. Qed.

Lemma Vert_key_coords i tg x : Vert_key (Vert.mk i tg (coords x)) = hash x.
Proof. done. Qed.

Lemma swept_nil vt : swept vt [] sweep0.
Proof.
  split; simpl; try done.
  - intros h c. rewrite lookup_empty. split; [done|]. by intros (i & v & _ & ? & _).
  - by intros v ?%elem_of_nil.
Qed.

Lemma swept_seen vt xs s h :
  swept vt xs s → (is_Some (verts s !! h) ↔ h ∈ hash <$> xs).
Proof.
  intros Hs. split.
  - intros [c Hc]. apply (swept_map _ _ _ Hs) in Hc as (i & v & _ & Hv & <-).
    assert (Vert_key v ∈ discover [] (hash <$> xs)) as Hin.
    { rewrite <-(swept_keys _ _ _ Hs). apply list_elem_of_fmap. exists v. split; [done|].
      by eapply list_elem_of_lookup_2. }
    apply discover_elem in Hin as [[]%elem_of_nil|]; done.
  - intros Hin.
    assert (h ∈ Vert_key <$> printed s) as (v & -> & [i Hi]%list_elem_of_lookup)%list_elem_of_fmap.
    { rewrite (swept_keys _ _ _ Hs). apply discover_elem. by right. }
    exists (Z.of_nat i). apply (swept_map _ _ _ Hs). eauto.
Qed.

Lemma swept_visit vt xs s x : swept vt xs s → swept vt (xs ++ [x]) (visit vt s x).
Proof.
  intros Hs. unfold visit.
  destruct (verts s !! hash x) as [c|] eqn:Hx.
  - (* the key is known: nothing is printed *)
    assert (hash x ∈ discover [] (hash <$> xs)) as Hin.
    { apply discover_elem. right. apply (swept_seen _ _ _ _ Hs). eauto. }
    destruct Hs as [H1 H2 H3 H4 H5]. split; try done.
    + rewrite fmap_app. change (hash <$> [x]) with [hash x].
      by rewrite discover_snoc, decide_True.
    + intros v Hv. destruct (H5 v Hv) as (y & ? & ?). exists y.
      rewrite elem_of_app. tauto.
  - (* a new key: one vertex is printed *)
    assert (hash x ∉ discover [] (hash <$> xs)) as Hnin.
    { intros [[]%elem_of_nil|Hin]%discover_elem.
      apply (swept_seen _ _ _ _ Hs) in Hin as [? ?]. congruence. }
    assert (vertex_tag vt (hash x) =
            match vt with
            | Some vt0 => match vt0 !! hash x with Some val => val | None => 0 end
            | None => 0
            end) as <-.
    { unfold vertex_tag. destruct vt as [vt0|]; [|done]. by destruct (vt0 !! hash x). }
    destruct Hs as [H1 H2 H3 H4 H5]. split; simpl.
    + rewrite length_app. simpl. lia.
    + intros i v [[_ Hv]|[-> <-]]%lookup_snoc_Some; [by apply H2|].
      simpl. by rewrite H1.
    + intros h c. rewrite lookup_insert. case_decide as Hh.
      * subst h. split.
        -- intros [= <-]. exists (length (printed s)), (Vert.mk (vid s) (vertex_tag vt (hash x)) (coords x)).
           split_and!; [done| |done]. by apply list_lookup_middle.
        -- intros (i & v & -> & [[_ Hv]|[-> <-]]%lookup_snoc_Some & Hk).
           ++ exfalso. apply Hnin. rewrite <-H4, <-Hk. apply list_elem_of_fmap.
              exists v. split; [done|]. by eapply list_elem_of_lookup_2.
           ++ by rewrite H1.
      * rewrite H3. split.
        -- intros (i & v & -> & Hv & Hk). exists i, v. split_and!; [done| |done].
           apply lookup_app_l_Some. done.
        -- intros (i & v & -> & [[_ Hv]|[-> <-]]%lookup_snoc_Some & Hk); [by eauto|].
           simpl in Hk. done.
    + rewrite !fmap_app. change (hash <$> [x]) with [hash x].
      rewrite discover_snoc, decide_False by done. simpl. by rewrite H4.
    + intros v [Hv| ->%list_elem_of_singleton]%elem_of_app.
      * destruct (H5 v Hv) as (y & ? & ?). exists y. rewrite elem_of_app. tauto.
      * exists x. split; [|done]. rewrite elem_of_app, list_elem_of_singleton. tauto.
Qed.

Lemma swept_foldl vt xs : swept vt xs (foldl (visit vt) sweep0 xs).
Proof.
  induction xs as [|x xs IH] using rev_ind; [apply swept_nil|].
  rewrite foldl_app. simpl. by apply swept_visit.
Qed.

Lemma swept_all vt nurbss : swept vt (all_points nurbss) (sweep_all vt nurbss).
Proof. rewrite sweep_all_points. apply swept_foldl. Qed.

(** The map sends distinct keys to distinct ids. *)
Lemma swept_inj vt xs s h1 h2 c :
  swept vt xs s → verts s !! h1 = Some c → verts s !! h2 = Some c → h1 = h2.
Proof.
  intros Hs (i1 & v1 & -> & Hv1 & <-)%(swept_map _ _ _ Hs)
            (i2 & v2 & Hi & Hv2 & <-)%(swept_map _ _ _ Hs).
  apply Nat2Z.inj in Hi as ->. congruence.
Qed.

Lemma elem_of_all_points nurbss x :
  x ∈ all_points nurbss ↔ ∃ o ijk, o ∈ nurbss ∧ ijk ∈ lattice o ∧ x = GetQ3 o ijk.
Proof.
  unfold all_points. rewrite list_elem_of_bind. split.
  - intros (o & (ijk & -> & ?)%list_elem_of_fmap & ?). eauto.
  - intros (o & ijk & ? & ? & ->). exists o. split; [|done].
    apply list_elem_of_fmap. eauto.
Qed.

End Sweep.

(** ** The loops over shapes and elements *)

Section Loops.
Context {N : Type} `{!Nurbs.ops N}.

Lemma bind_Ok {A B} (m : result A) (f : A → result B) r :
  m ≫= f = Ok r → ∃ a, m = Ok a ∧ f a = Ok r.
Proof. destruct m as [a|e]; [by exists a|done]. Qed.

Lemma index_Ok {A} (l : list A) i a :
  index l i = Ok a ↔ 0 ≤ i ∧ l !! Z.to_nat i = Some a.
Proof.
  unfold index. case_decide; [|split; [done|tauto]].
  destruct (l !! Z.to_nat i); (split; [intros [= <-]; done|intros [_ [= <-]]; done])
    || (split; [done|intros [_ ?]; done]).
Qed.

Lemma write_nurbs_fold (vs : gmap Z Z) nurbss i0 out res :
  range_foldM (write_nurbs vs) i0 nurbss out = Ok res →
  ∃ ds, res = out ++ ds ∧ length ds = length nurbss ∧
    ∀ k o, nurbss !! k = Some o →
      ∃ ks, knots_of o = Ok ks ∧ ds !! k = Some (NurbsD_of vs (i0 + Z.of_nat k) o ks).
Proof.
  revert i0 out. induction nurbss as [|o os IH]; intros i0 out; simpl.
  - intros [= <-]. exists []. by rewrite app_nil_r.
  - intros (out1 & Ho & Hrest)%bind_Ok. unfold write_nurbs in Ho.
    apply bind_Ok in Ho as (ks & Hks & [= <-]).
    apply IH in Hrest as (ds & -> & Hlen & Hds).
    exists (NurbsD_of vs i0 o ks :: ds). split_and!.
    + by rewrite <-app_assoc.
    + simpl. by rewrite Hlen.
    + intros [|k] o' Hk; simpl in *.
      * injection Hk as <-. exists ks. by rewrite Z.add_0_r.
      * destruct (Hds k o' Hk) as (ks' & ? & Hd). exists ks'. split; [done|].
        rewrite Hd. do 2 f_equal. lia.
Qed.

Lemma write_cell_fold (vs : gmap Z Z) ct sid o enodes elems i0 cid out cid' out' :
  range_foldM (write_cell vs ct sid o enodes) i0 elems (cid, out) = Ok (cid', out') →
  cid' = cid + Z.of_nat (length elems) ∧
  ∃ cs, out' = out ++ cs ∧ length cs = length elems ∧
    ∀ k e, elems !! k = Some e →
      ∃ en, index enodes (i0 + Z.of_nat k) = Ok en ∧
        cs !! k = Some (Cell_of vs ct sid o (cid + Z.of_nat k) (i0 + Z.of_nat k) e en).
Proof.
  revert i0 cid out. induction elems as [|e es IH]; intros i0 cid out; simpl.
  - intros [= <- <-]. split; [lia|]. exists []. by rewrite app_nil_r.
  - intros ([cid1 out1] & He & Hrest)%bind_Ok. unfold write_cell in He.
    apply bind_Ok in He as (en & Hen & [= <- <-]).
    apply IH in Hrest as (-> & cs & -> & Hlen & Hcs).
    split; [lia|].
    exists (Cell_of vs ct sid o cid i0 e en :: cs). split_and!.
    + rewrite <-app_assoc. simpl. unfold Cell_of, cell_tag.
      destruct ct as [ct0|]; [|done]. by destruct (ct0 !! _).
    + simpl. by rewrite Hlen.
    + intros [|k] e' Hk; simpl in *.
      * injection Hk as <-. exists en. by rewrite !Z.add_0_r.
      * destruct (Hcs k e' Hk) as (en' & Hen' & Hc). exists en'.
        replace (i0 + Z.of_nat (S k)) with (i0 + 1 + Z.of_nat k) by lia.
        replace (cid + Z.of_nat (S k)) with (cid + 1 + Z.of_nat k) by lia.
        done.
Qed.

Lemma write_cells_fold (vs : gmap Z Z) ct nurbss i0 cid out cid' out' :
  range_foldM (write_cells vs ct) i0 nurbss (cid, out) = Ok (cid', out') →
  cid' = cid + Z.of_nat (element_count nurbss) ∧
  ∃ cs, out' = out ++ cs ∧ length cs = element_count nurbss ∧
    ∀ k o eid e, nurbss !! k = Some o → Nurbs.Elements o !! eid = Some e →
      ∃ en, Nurbs.Enodes o !! eid = Some en ∧
        cs !! cell_place nurbss k eid =
          Some (Cell_of vs ct (i0 + Z.of_nat k) o
                  (cid + Z.of_nat (cell_place nurbss k eid)) (Z.of_nat eid) e en).
Proof.
  revert i0 cid out. induction nurbss as [|o os IH]; intros i0 cid out; simpl.
  - intros [= <- <-]. split; [unfold element_count; simpl; lia|].
    exists []. by rewrite app_nil_r.
  - intros ([cid1 out1] & Ho & Hrest)%bind_Ok. unfold write_cells in Ho.
    apply write_cell_fold in Ho as (-> & cs1 & -> & Hlen1 & Hcs1).
    apply IH in Hrest as (-> & cs & -> & Hlen & Hcs).
    unfold element_count in *. simpl. split; [lia|].
    exists (cs1 ++ cs). split_and!.
    + by rewrite <-app_assoc.
    + rewrite length_app. lia.
    + intros [|k] o' eid e Hk He; unfold cell_place, element_count; simpl in *.
      * injection Hk as <-. destruct (Hcs1 eid e He) as (en & Hen & Hc).
        apply index_Ok in Hen as [_ Hen]. rewrite Z.add_0_l, Nat2Z.id in Hen.
        exists en. split; [done|]. rewrite Z.add_0_r.
        rewrite Z.add_0_l in Hc. by apply lookup_app_l_Some.
      * destruct (Hcs k o' eid e Hk He) as (en & Hen & Hc). exists en. split; [done|].
        unfold cell_place, element_count in Hc.
        rewrite <-Nat.add_assoc, lookup_app_r by lia.
        replace (length (Nurbs.Elements o) + _ - length cs1)%nat with
          (sum_list_with (λ o, length (Nurbs.Elements o)) (take k os) + eid)%nat by lia.
        rewrite Hc. do 2 f_equal; lia.
Qed.

End Loops.

(** ** The lattice traversal *)

Section Traversal.
Context {N : Type} `{!Nurbs.ops N}.

Lemma length_bind_const {A B} (f : A → list B) (l : list A) (m : nat) :
  (∀ a, a ∈ l → length (f a) = m) → length (l ≫= f) = (length l * m)%nat.
Proof.
  induction l as [|a l IH]; intros Hf; [done|].
  rewrite bind_cons, length_app, IH, Hf; [simpl; lia|set_solver|set_solver].
Qed.

Lemma lookup_bind_const {A B} (f : A → list B) (l : list A) (m q r : nat) a :
  (∀ a, a ∈ l → length (f a) = m) → l !! q = Some a → (r < m)%nat →
  (l ≫= f) !! (q * m + r)%nat = f a !! r.
Proof.
  revert q. induction l as [|a' l IH]; intros q Hf Hq Hr; [done|].
  rewrite bind_cons. destruct q as [|q]; simpl in *.
  - injection Hq as ->. rewrite lookup_app_l; [done|]. rewrite Hf; [done|set_solver].
  - rewrite lookup_app_r; rewrite Hf by set_solver; [|lia].
    replace (m + q * m + r - m)%nat with (q * m + r)%nat by lia.
    apply IH; [set_solver|done|done].
Qed.

Lemma seqZ_lookup_nat n i : 0 ≤ i < n → seqZ 0 n !! Z.to_nat i = Some i.
Proof. intros. apply lookup_seqZ. lia. Qed.

Lemma lattice_planes o :
  lattice o = k ← seqZ 0 (Nurbs.n o 2); plane (Nurbs.n o 0) (Nurbs.n o 1) k.
Proof. done. Qed.

Lemma length_row n0 j k : length (row n0 j k) = Z.to_nat n0.
Proof.
  unfold row. rewrite (length_bind_const _ _ 1); [rewrite length_seqZ; lia|done].
Qed.

Lemma length_plane n0 n1 k : length (plane n0 n1 k) = (Z.to_nat n1 * Z.to_nat n0)%nat.
Proof.
  unfold plane. rewrite (length_bind_const _ _ (Z.to_nat n0)).
  - by rewrite length_seqZ.
  - intros. apply length_row.
Qed.

Lemma length_lattice o :
  length (lattice o) =
    (Z.to_nat (Nurbs.n o 2) * (Z.to_nat (Nurbs.n o 1) * Z.to_nat (Nurbs.n o 0)))%nat.
Proof.
  rewrite lattice_planes, (length_bind_const _ _ _ (λ _ _, length_plane _ _ _)).
  by rewrite length_seqZ.
Qed.

Lemma lookup_lattice o i j k :
  0 ≤ i < Nurbs.n o 0 → 0 ≤ j < Nurbs.n o 1 → 0 ≤ k < Nurbs.n o 2 →
  lattice o !! position o i j k = Some (i, j, k).
Proof.
  intros Hi Hj Hk. unfold position.
  set (n0 := Nurbs.n o 0) in *. set (n1 := Nurbs.n o 1) in *.
  assert (0 ≤ n1 * k) by nia. assert (0 ≤ n0 * (j + n1 * k)) by nia.
  replace (Z.to_nat (i + n0 * (j + n1 * k))) with
    (Z.to_nat k * (Z.to_nat n1 * Z.to_nat n0) + (Z.to_nat j * Z.to_nat n0 + Z.to_nat i))%nat.
  2:{ rewrite Z2Nat.inj_add, Z2Nat.inj_mul, Z2Nat.inj_add, Z2Nat.inj_mul by lia. lia. }
  rewrite lattice_planes.
  rewrite (lookup_bind_const _ _ _ _ _ k (λ _ _, length_plane _ _ _));
    [|by apply seqZ_lookup_nat|nia].
  unfold plane.
  rewrite (lookup_bind_const _ _ _ _ _ j (λ _ _, length_row _ _ _));
    [|by apply seqZ_lookup_nat|lia].
  unfold row.
  replace (Z.to_nat i) with (Z.to_nat i * 1 + 0)%nat by lia.
  rewrite (lookup_bind_const _ _ 1 _ _ i); [done|done|by apply seqZ_lookup_nat|lia].
Qed.

Lemma elem_of_lattice o ijk :
  ijk ∈ lattice o ↔
    0 ≤ ijk.1.1 < Nurbs.n o 0 ∧ 0 ≤ ijk.1.2 < Nurbs.n o 1 ∧ 0 ≤ ijk.2 < Nurbs.n o 2.
Proof.
  unfold lattice. destruct ijk as [[i j] k]. simpl.
  rewrite list_elem_of_bind. setoid_rewrite list_elem_of_bind.
  setoid_rewrite list_elem_of_bind. setoid_rewrite list_elem_of_singleton.
  setoid_rewrite elem_of_seqZ. split.
  - intros (k' & (j' & (i' & [= -> -> ->] & ?) & ?) & ?). lia.
  - intros (? & ? & ?). exists k. split; [|lia]. exists j. split; [|lia].
    exists i. split; [done|lia].
Qed.

End Traversal.

(** ** The document that WriteMshD prints *)

Section Document.
Context {N : Type} `{!Nurbs.ops N}.
Implicit Types (nurbss : list N) (o : N) (doc : Msh.t).

(** The three lists of the document, entry by entry. *)
Lemma WriteMshD_Ok dirout fnk nurbss vt ct doc :
  WriteMshD dirout fnk nurbss vt ct = Ok doc →
  let s := sweep_all vt nurbss in
  Msh.verts doc = printed s
  ∧ (length (Msh.nurbss doc) = length nurbss
     ∧ ∀ k o, nurbss !! k = Some o →
         ∃ ks, knots_of o = Ok ks
               ∧ Msh.nurbss doc !! k = Some (NurbsD_of (verts s) (Z.of_nat k) o ks))
  ∧ (length (Msh.cells doc) = element_count nurbss
     ∧ ∀ k o eid e, nurbss !! k = Some o → Nurbs.Elements o !! eid = Some e →
         ∃ en, Nurbs.Enodes o !! eid = Some en
               ∧ Msh.cells doc !! cell_place nurbss k eid =
                   Some (Cell_of (verts s) ct (Z.of_nat k) o
                           (Z.of_nat (cell_place nurbss k eid)) (Z.of_nat eid) e en)).
Proof.
  unfold WriteMshD. intros (ns & Hns & (cs & Hcs & [= <-])%bind_Ok)%bind_Ok. simpl.
  apply write_nurbs_fold in Hns as (ds & -> & Hlen & Hds).
  destruct cs as [cid' out']. apply write_cells_fold in Hcs as (_ & cs & -> & Hclen & Hcs).
  simpl. split_and!; [done|done| |done|].
  - intros k o Hk. destruct (Hds k o Hk) as (ks & ? & ?). exists ks.
    by rewrite Z.add_0_l in *.
  - intros k o eid e Hk He. destruct (Hcs k o eid e Hk He) as (en & ? & ?). exists en.
    by rewrite !Z.add_0_l in *.
Qed.

Lemma knots_of_Ok o :
  Nurbs.gnd o ≤ Z.of_nat (length (Nurbs.b o)) → ∃ ks, knots_of o = Ok ks.
Proof.
  unfold knots_of. intros Hg.
  assert (∀ d, d ∈ seqZ 0 (Nurbs.gnd o) → ∃ bd, index (Nurbs.b o) d = Ok bd) as Hall.
  { intros d [? ?]%elem_of_seqZ.
    destruct (lookup_lt_is_Some_2 (Nurbs.b o) (Z.to_nat d)) as [bd Hbd]; [lia|].
    exists bd. apply index_Ok. split; [lia|done]. }
  induction (seqZ 0 (Nurbs.gnd o)) as [|d ds IH]; [by exists []|].
  destruct (Hall d) as [bd Hbd]; [set_solver|].
  destruct IH as [ks Hks]; [intros; apply Hall; set_solver|].
  exists (Bspline.T bd :: ks). simpl. rewrite Hbd. simpl. by rewrite Hks.
Qed.

Lemma write_nurbs_fold_Ok (vs : gmap Z Z) nurbss i0 out :
  (∀ o, o ∈ nurbss → Nurbs.gnd o ≤ Z.of_nat (length (Nurbs.b o))) →
  ∃ res, range_foldM (write_nurbs vs) i0 nurbss out = Ok res.
Proof.
  revert i0 out. induction nurbss as [|o os IH]; intros i0 out Hall; cbn [range_foldM];
    [by eexists|].
  destruct (knots_of_Ok o) as [ks Hks]; [apply Hall; set_solver|].
  assert (write_nurbs vs out i0 o = Ok (out ++ [NurbsD_of vs i0 o ks])) as ->
    by (unfold write_nurbs; by rewrite Hks).
  simpl. apply IH. intros; apply Hall; set_solver.
Qed.

Lemma write_cell_fold_Ok (vs : gmap Z Z) ct sid o enodes elems i0 s :
  0 ≤ i0 → i0 + Z.of_nat (length elems) ≤ Z.of_nat (length enodes) →
  ∃ res, range_foldM (write_cell vs ct sid o enodes) i0 elems s = Ok res.
Proof.
  revert i0 s. induction elems as [|e es IH]; intros i0 [cid out] H0 Hlen;
    cbn [range_foldM length] in *; [by eexists|].
  destruct (lookup_lt_is_Some_2 enodes (Z.to_nat i0)) as [en Hen]; [lia|].
  assert (∃ s', write_cell vs ct sid o enodes (cid, out) i0 e = Ok s') as [s' ->].
  { unfold write_cell. assert (index enodes i0 = Ok en) as -> by (by apply index_Ok).
    by eexists. }
  simpl. apply IH; lia.
Qed.

Lemma write_cells_fold_Ok (vs : gmap Z Z) ct nurbss i0 s :
  (∀ o, o ∈ nurbss → (length (Nurbs.Elements o) ≤ length (Nurbs.Enodes o))%nat) →
  ∃ res, range_foldM (write_cells vs ct) i0 nurbss s = Ok res.
Proof.
  revert i0 s. induction nurbss as [|o os IH]; intros i0 s Hall; cbn [range_foldM];
    [by eexists|].
  assert (∃ s', write_cells vs ct s i0 o = Ok s') as [s' ->].
  { unfold write_cells. apply write_cell_fold_Ok; [done|].
    assert (o ∈ o :: os) as Ho%Hall by set_solver. lia. }
  simpl. apply IH. intros; apply Hall; set_solver.
Qed.

(** [WriteMshD] prints a document whenever every shape has a B-spline for
    each of its [gnd] directions and a list of local nodes for each of its
    elements. *)
Lemma WriteMshD_total dirout fnk nurbss vt ct :
  (∀ o, o ∈ nurbss →
     Nurbs.gnd o ≤ Z.of_nat (length (Nurbs.b o))
     ∧ (length (Nurbs.Elements o) ≤ length (Nurbs.Enodes o))%nat) →
  ∃ doc, WriteMshD dirout fnk nurbss vt ct = Ok doc.
Proof.
  intros Hall. unfold WriteMshD.
  destruct (write_nurbs_fold_Ok (verts (sweep_all vt nurbss)) nurbss 0 [])
    as [ns ->]; [intros; by apply Hall|].
  destruct (write_cells_fold_Ok (verts (sweep_all vt nurbss)) ct nurbss 0 (0, []))
    as [cs ->]; [intros; by apply Hall|].
  simpl. by eexists.
Qed.

Lemma fmap_positions {A} (f : A → Z) (l : list A) :
  (∀ i a, l !! i = Some a → f a = Z.of_nat i) → f <$> l = seqZ 0 (Z.of_nat (length l)).
Proof.
  intros Hf. apply list_eq. intros i. rewrite list_lookup_fmap.
  destruct (l !! i) as [a|] eqn:Hi; simpl.
  - rewrite (Hf i a Hi). symmetry. apply lookup_seqZ. split; [lia|].
    apply lookup_lt_Some in Hi. lia.
  - symmetry. apply lookup_seqZ_ge. apply lookup_ge_None in Hi. lia.
Qed.

Lemma cell_place_cons o nurbss k eid :
  cell_place (o :: nurbss) (S k) eid =
    (length (Nurbs.Elements o) + cell_place nurbss k eid)%nat.
Proof. unfold cell_place, element_count. simpl. lia. Qed.

(** Every place among the cells is the place of one element of one shape. *)
Lemma cell_place_surj nurbss i :
  (i < element_count nurbss)%nat →
  ∃ k o eid e, nurbss !! k = Some o ∧ Nurbs.Elements o !! eid = Some e
               ∧ i = cell_place nurbss k eid.
Proof.
  revert i. induction nurbss as [|o os IH]; intros i Hi.
  - unfold element_count in Hi. simpl in Hi. lia.
  - destruct (decide (i < length (Nurbs.Elements o))%nat) as [Hlt|Hge].
    + destruct (lookup_lt_is_Some_2 _ _ Hlt) as [e He].
      exists 0%nat, o, i, e. split_and!; [done|done|].
      unfold cell_place, element_count. simpl. lia.
    + destruct (IH (i - length (Nurbs.Elements o))%nat) as (k & o' & eid & e & ? & ? & Hp).
      { unfold element_count in *. simpl in Hi. lia. }
      exists (S k), o', eid, e. split_and!; [done|done|].
      rewrite cell_place_cons. lia.
Qed.

End Document.

(** ** Vertex ids, control ids, tags *)

Section Claims.
Context {N : Type} `{!Nurbs.ops N}.
Implicit Types (nurbss : list N) (o : N) (doc : Msh.t).

(** The control id printed for a lattice point is the value that the first
    sweep stored under the key of that point, and it is the id of the printed
    vertex with that key. *)
Lemma ctrl_assigned dirout fnk nurbss vt ct doc k o a ijk :
  WriteMshD dirout fnk nurbss vt ct = Ok doc →
  nurbss !! k = Some o → lattice o !! a = Some ijk →
  ∃ i d v,
    verts (sweep_all vt nurbss) !! hash (GetQ3 o ijk) = Some (Z.of_nat i)
    ∧ Msh.nurbss doc !! k = Some d
    ∧ NurbsD.Ctrls d !! a = Some (Z.of_nat i)
    ∧ Msh.verts doc !! i = Some v
    ∧ Vert.Id v = Z.of_nat i
    ∧ Vert_key v = hash (GetQ3 o ijk).
Proof.
  intros Hdoc Hk Ha.
  destruct (WriteMshD_Ok _ _ _ _ _ _ Hdoc) as (Hv & [_ Hn] & _).
  pose proof (swept_all vt nurbss) as Hs.
  assert (is_Some (verts (sweep_all vt nurbss) !! hash (GetQ3 o ijk))) as [c Hc].
  { apply (swept_seen _ _ _ _ Hs), list_elem_of_fmap. exists (GetQ3 o ijk).
    split; [done|]. apply elem_of_all_points. exists o, ijk.
    split_and!; [by eapply list_elem_of_lookup_2|by eapply list_elem_of_lookup_2|done]. }
  pose proof Hc as (i & v & -> & Hi & Hkey)%(swept_map _ _ _ Hs).
  destruct (Hn k o Hk) as (ks & _ & Hd).
  exists i, (NurbsD_of (verts (sweep_all vt nurbss)) (Z.of_nat k) o ks), v.
  split_and!; try done.
  - simpl. unfold ctrls_of. rewrite list_lookup_fmap, Ha. simpl.
    unfold map_get. by rewrite Hc.
  - by rewrite Hv.
  - by eapply swept_ids.
Qed.

(** C10: every key looked up when the control ids of a shape are printed
    (second pass over the lattice, lines 76-91) was inserted by the first
    sweep (lines 31-54): the lookup finds an entry, never the zero default,
    and the id it finds is the id of a vertex printed in the ["verts"]
    list, the one with that key. *)
Theorem emission_lookup_hits dirout fnk nurbss vt ct doc k o a ijk :
  WriteMshD dirout fnk nurbss vt ct = Ok doc →
  nurbss !! k = Some o → lattice o !! a = Some ijk →
  ∃ c d v,
    verts (sweep_all vt nurbss) !! hash (GetQ3 o ijk) = Some c
    ∧ Msh.nurbss doc !! k = Some d
    ∧ NurbsD.Ctrls d !! a = Some c
    ∧ 0 ≤ c
    ∧ Msh.verts doc !! Z.to_nat c = Some v
    ∧ Vert.Id v = c
    ∧ Vert_key v = hash (GetQ3 o ijk).
Proof.
  intros Hdoc Hk Ha.
  destruct (ctrl_assigned _ _ _ _ _ _ _ _ _ _ Hdoc Hk Ha)
    as (i & d & v & ? & ? & ? & ? & ? & ?).
  exists (Z.of_nat i), d, v. rewrite Nat2Z.id. split_and!; try done. lia.
Qed.

(** C2: among the control points of all shapes, two points with the same
    [HashPoint] key get the same vertex id in the ["ctrls"] lists, whatever
    the shapes and lattice positions they stand at, and two points with
    different keys get different ids. *)
Theorem dedup_ids dirout fnk nurbss vt ct doc
    k1 o1 d1 a1 t1 c1 k2 o2 d2 a2 t2 c2 :
  WriteMshD dirout fnk nurbss vt ct = Ok doc →
  nurbss !! k1 = Some o1 → Msh.nurbss doc !! k1 = Some d1 →
  lattice o1 !! a1 = Some t1 → NurbsD.Ctrls d1 !! a1 = Some c1 →
  nurbss !! k2 = Some o2 → Msh.nurbss doc !! k2 = Some d2 →
  lattice o2 !! a2 = Some t2 → NurbsD.Ctrls d2 !! a2 = Some c2 →
  (hash (GetQ3 o1 t1) = hash (GetQ3 o2 t2) → c1 = c2)
  ∧ (hash (GetQ3 o1 t1) ≠ hash (GetQ3 o2 t2) → c1 ≠ c2).
Proof.
  intros Hdoc Hk1 Hd1 Ha1 Hc1 Hk2 Hd2 Ha2 Hc2.
  destruct (ctrl_assigned _ _ _ _ _ _ _ _ _ _ Hdoc Hk1 Ha1)
    as (i1 & d1' & v1 & Hm1 & Hd1' & Hc1' & _).
  destruct (ctrl_assigned _ _ _ _ _ _ _ _ _ _ Hdoc Hk2 Ha2)
    as (i2 & d2' & v2 & Hm2 & Hd2' & Hc2' & _).
  assert (d1' = d1) as -> by congruence. assert (d2' = d2) as -> by congruence.
  assert (c1 = Z.of_nat i1) as -> by congruence.
  assert (c2 = Z.of_nat i2) as -> by congruence.
  split.
  - intros Hh. rewrite Hh in Hm1. congruence.
  - intros Hh Hc. apply Hh. rewrite Hc in Hm1.
    eapply swept_inj; [apply (swept_all vt nurbss)|done|done].
Qed.

(** C3: the vertex ids are [0 .. N-1] in the order in which the keys are
    first met by the sweep, without gaps or duplicates; the shape ids are
    [0 .. S-1] in input order, entry [k] being the one of the [k]-th shape;
    the cell ids are [0 .. C-1], [C] the number of
    elements of all shapes, from one counter that goes on from shape to
    shape: element [eid] of shape [k] is the cell whose id is the number of
    elements of the shapes before [k] plus [eid]. *)
Theorem ids_dense dirout fnk nurbss vt ct doc :
  WriteMshD dirout fnk nurbss vt ct = Ok doc →
  Vert.Id <$> Msh.verts doc = seqZ 0 (Z.of_nat (length (Msh.verts doc)))
  ∧ Vert_key <$> Msh.verts doc = discover [] (hash <$> all_points nurbss)
  ∧ NoDup (Vert_key <$> Msh.verts doc)
  ∧ NurbsD.Id <$> Msh.nurbss doc = seqZ 0 (Z.of_nat (length nurbss))
  ∧ (∀ k o, nurbss !! k = Some o →
       ∃ d, Msh.nurbss doc !! k = Some d ∧ NurbsD.Id d = Z.of_nat k
            ∧ NurbsD.Gnd d = Nurbs.gnd o ∧ knots_of o = Ok (NurbsD.Knots d))
  ∧ Cell.id <$> Msh.cells doc = seqZ 0 (Z.of_nat (element_count nurbss))
  ∧ (∀ k o eid e, nurbss !! k = Some o → Nurbs.Elements o !! eid = Some e →
       ∃ c, Msh.cells doc !! cell_place nurbss k eid = Some c
            ∧ Cell.id c = Z.of_nat (element_count (take k nurbss)) + Z.of_nat eid
            ∧ Cell.nrb c = Z.of_nat k
            ∧ Cell.span c = e).
Proof.
  intros Hdoc.
  destruct (WriteMshD_Ok _ _ _ _ _ _ Hdoc) as (Hv & [Hnl Hn] & [Hcl Hc]).
  pose proof (swept_all vt nurbss) as Hs. split_and!.
  - rewrite Hv. apply fmap_positions, (swept_ids _ _ _ Hs).
  - rewrite Hv. apply (swept_keys _ _ _ Hs).
  - rewrite Hv, (swept_keys _ _ _ Hs). apply discover_NoDup, NoDup_nil_2.
  - rewrite <-Hnl. apply fmap_positions. intros i d Hi.
    destruct (lookup_lt_is_Some_2 nurbss i) as [o Ho];
      [rewrite <-Hnl; by eapply lookup_lt_Some|].
    destruct (Hn i o Ho) as (ks & _ & Hd). rewrite Hi in Hd. by injection Hd as ->.
  - intros k o Hk. destruct (Hn k o Hk) as (ks & Hks & Hd). eexists. split; [done|].
    done.
  - rewrite <-Hcl. apply fmap_positions. intros i c Hi.
    destruct (cell_place_surj nurbss i) as (k & o & eid & e & Hk & He & ->);
      [rewrite <-Hcl; by eapply lookup_lt_Some|].
    destruct (Hc k o eid e Hk He) as (en & _ & Hc'). rewrite Hi in Hc'.
    by injection Hc' as ->.
  - intros k o eid e Hk He. destruct (Hc k o eid e Hk He) as (en & _ & Hc').
    eexists. split; [done|]. simpl. unfold cell_place. split_and!; [lia|done|done].
Qed.

(** C6: both passes over a shape walk its lattice with [k] (axis 2)
    outermost, then [j] (axis 1), then [i] (axis 0) innermost, so that the
    point [(i, j, k)] stands at place [i + n0*(j + n1*k)]; the first sweep
    visits the points in that order, the ["ctrls"] list holds at that place
    the id stored for the key of that point, and the list has [n0*n1*n2]
    entries. *)
Theorem lattice_order dirout fnk nurbss vt ct doc s o :
  WriteMshD dirout fnk nurbss vt ct = Ok doc →
  nurbss !! s = Some o →
  0 ≤ Nurbs.n o 0 → 0 ≤ Nurbs.n o 1 → 0 ≤ Nurbs.n o 2 →
  (∀ s0, sweep_shape vt s0 o = foldl (visit vt) s0 (GetQ3 o <$> lattice o))
  ∧ ∃ d, Msh.nurbss doc !! s = Some d
      ∧ Z.of_nat (length (NurbsD.Ctrls d)) = Nurbs.n o 0 * Nurbs.n o 1 * Nurbs.n o 2
      ∧ ∀ i j k,
          0 ≤ i < Nurbs.n o 0 → 0 ≤ j < Nurbs.n o 1 → 0 ≤ k < Nurbs.n o 2 →
          lattice o !! position o i j k = Some (i, j, k)
          ∧ NurbsD.Ctrls d !! position o i j k =
              Some (map_get (verts (sweep_all vt nurbss)) (hash (Nurbs.GetQ o i j k))).
Proof.
  intros Hdoc Hs H0 H1 H2. split; [intros; apply sweep_shape_points|].
  destruct (WriteMshD_Ok _ _ _ _ _ _ Hdoc) as (_ & [_ Hn] & _).
  destruct (Hn s o Hs) as (ks & _ & Hd). eexists. split; [done|]. simpl. split.
  - unfold ctrls_of. rewrite length_fmap, length_lattice. lia.
  - intros i j k Hi Hj Hk. pose proof (lookup_lattice o i j k Hi Hj Hk) as Hl.
    split; [done|]. unfold ctrls_of. by rewrite list_lookup_fmap, Hl.
Qed.

(** C7: every printed vertex has the tag that [vtagged] gives for its key,
    and tag [0] when the key is absent from [vtagged] or [vtagged] is [nil],
    and every control point has such a vertex; the cell printed for element
    [eid] of shape [k], which stands at the place of that element among the
    cells, has the tag that [ctagged] gives for the key ["k_eid"], and tag
    [-1] when that key is absent or [ctagged] is [nil]; there is no other
    cell. *)
Theorem default_tags dirout fnk nurbss vt ct doc :
  WriteMshD dirout fnk nurbss vt ct = Ok doc →
  (∀ v, v ∈ Msh.verts doc →
     match vt with
     | None => Vert.Tag v = 0
     | Some t => match t !! Vert_key v with
                 | None => Vert.Tag v = 0
                 | Some val => Vert.Tag v = val
                 end
     end)
  ∧ (∀ x, x ∈ all_points nurbss →
       ∃ v, v ∈ Msh.verts doc ∧ Vert_key v = hash x
            ∧ match vt with
              | None => Vert.Tag v = 0
              | Some t => match t !! hash x with
                          | None => Vert.Tag v = 0
                          | Some val => Vert.Tag v = val
                          end
              end)
  ∧ length (Msh.cells doc) = element_count nurbss
  ∧ (∀ k o eid e, nurbss !! k = Some o → Nurbs.Elements o !! eid = Some e →
       ∃ c, Msh.cells doc !! cell_place nurbss k eid = Some c
            ∧ Cell.nrb c = Z.of_nat k ∧ Cell.span c = e
            ∧ match ct with
              | None => Cell.tag c = -1
              | Some t => match t !! cell_key (Z.of_nat k) (Z.of_nat eid) with
                          | None => Cell.tag c = -1
                          | Some val => Cell.tag c = val
                          end
              end)
  ∧ (∀ i c, Msh.cells doc !! i = Some c →
       ∃ k o eid e,
         nurbss !! k = Some o ∧ Nurbs.Elements o !! eid = Some e
         ∧ i = cell_place nurbss k eid
         ∧ Cell.nrb c = Z.of_nat k ∧ Cell.span c = e
         ∧ match ct with
           | None => Cell.tag c = -1
           | Some t => match t !! cell_key (Z.of_nat k) (Z.of_nat eid) with
                       | None => Cell.tag c = -1
                       | Some val => Cell.tag c = val
                       end
           end).
Proof.
  intros Hdoc.
  destruct (WriteMshD_Ok _ _ _ _ _ _ Hdoc) as (Hv & _ & [Hcl Hc]).
  pose proof (swept_all vt nurbss) as Hs.
  assert (∀ v, v ∈ Msh.verts doc →
            match vt with
            | None => Vert.Tag v = 0
            | Some t => match t !! Vert_key v with
                        | None => Vert.Tag v = 0
                        | Some val => Vert.Tag v = val
                        end
            end) as Hvert.
  { intros v Hin. rewrite Hv in Hin.
    destruct (swept_from _ _ _ Hs v Hin) as (x & _ & ->). simpl.
    rewrite Vert_key_coords. unfold vertex_tag.
    destruct vt as [t|]; [|done]. by destruct (t !! hash x). }
  assert (∀ k o eid e, nurbss !! k = Some o → Nurbs.Elements o !! eid = Some e →
            ∃ c, Msh.cells doc !! cell_place nurbss k eid = Some c
                 ∧ Cell.nrb c = Z.of_nat k ∧ Cell.span c = e
                 ∧ match ct with
                   | None => Cell.tag c = -1
                   | Some t => match t !! cell_key (Z.of_nat k) (Z.of_nat eid) with
                               | None => Cell.tag c = -1
                               | Some val => Cell.tag c = val
                               end
                   end) as Hcell.
  { intros k o eid e Hk He. destruct (Hc k o eid e Hk He) as (en & _ & Hc').
    eexists. split; [done|]. split; [done|]. split; [done|].
    simpl. unfold cell_tag. destruct ct as [t|]; [|done]. by destruct (t !! _). }
  split; [done|]. split; [|split; [done|split; [done|]]].
  - intros x Hx.
    assert (is_Some (verts (sweep_all vt nurbss) !! hash x)) as [c Hm].
    { apply (swept_seen _ _ _ _ Hs), list_elem_of_fmap. eauto. }
    apply (swept_map _ _ _ Hs) in Hm as (i & v & _ & Hi & Hkey).
    assert (v ∈ Msh.verts doc) as Hin by (rewrite Hv; by eapply list_elem_of_lookup_2).
    exists v. split; [done|]. split; [done|].
    specialize (Hvert v Hin). by rewrite Hkey in Hvert.
  - intros i c Hi.
    destruct (cell_place_surj nurbss i) as (k & o & eid & e & Hk & He & ->);
      [rewrite <-Hcl; by eapply lookup_lt_Some|].
    destruct (Hcell k o eid e Hk He) as (c' & Hc' & Hnrb & Hspan & Htag).
    assert (c' = c) as -> by congruence. exists k, o, eid, e.
    repeat (split; [done|]). exact Htag.
Qed.

End Claims.

(** ** HashPoint *)

Section Keys.

Lemma trunc_finite f s m e :
  Prim2SF f = S754_finite s m e →
  trunc f = Some (Z.quot (cond_Zopp s (Z.pos m) * 2 ^ Z.max 0 e) (2 ^ Z.max 0 (- e))).
Proof.
  unfold trunc. intros ->. f_equal.
  assert (∀ a b, 0 ≤ a → 0 < b →
            (if s then - (a / b) else a / b) = Z.quot (cond_Zopp s a) b) as Hq.
  { intros a b Ha Hb. destruct s; simpl.
    - by rewrite Z.quot_opp_l, Z.quot_div_nonneg by lia.
    - by rewrite Z.quot_div_nonneg by lia. }
  destruct e as [|k|k].
  - change (Z.max 0 0) with 0. change (Z.max 0 (- 0)) with 0.
    rewrite Z.mul_1_r, Z.quot_1_r. by destruct s.
  - rewrite Z.max_r, Z.max_l by lia. rewrite Z.shiftl_mul_pow2 by lia.
    change (2 ^ 0) with 1. rewrite Z.quot_1_r. destruct s; simpl; lia.
  - rewrite Z.max_l by lia. rewrite Z.max_r by lia.
    change (2 ^ 0) with 1. rewrite Z.mul_1_r.
    change (- Z.neg k) with (Z.pos k). rewrite Z.shiftr_div_pow2 by lia.
    apply Hq; [lia|]. apply Z.pow_pos_nonneg; lia.
Qed.

Lemma float_to_int_range f : int_min ≤ float_to_int f ≤ int_max.
Proof.
  unfold float_to_int. destruct (trunc f) as [z|]; [case_decide; [done|]|];
    unfold int_min, int_max; lia.
Qed.

(** C8: [HashPoint] is a function of its three arguments alone: equal
    arguments give equal keys, no tolerance is involved; the key is the
    affine combination [x*K1 + y*K2 + z*K3] in [float64], with the large and
    pairwise different multipliers [10001], [1000001] and [100000001],
    converted to an [int] by dropping the fraction; a key is produced for
    every input. *)
Theorem HashPoint_exact x y z x' y' z' :
  x = x' → y = y' → z = z' →
  HashPoint x y z = HashPoint x' y' z'
  ∧ HashPoint x y z = PointKeyer 10001 1000001 100000001 x y z
  ∧ (10001 <? 1000001)%float = true ∧ (1000001 <? 100000001)%float = true
  ∧ int_min ≤ HashPoint x y z ≤ int_max
  ∧ match Prim2SF (x * 10001 + y * 1000001 + z * 100000001)%float with
    | S754_zero _ => HashPoint x y z = 0
    | S754_finite s m e =>
        let q := Z.quot (cond_Zopp s (Z.pos m) * 2 ^ Z.max 0 e) (2 ^ Z.max 0 (- e)) in
        HashPoint x y z = if decide (int_min ≤ q ≤ int_max) then q else int_min
    | S754_infinity _ | S754_nan => HashPoint x y z = int_min
    end.
Proof.
  intros -> -> ->. do 4 (split; [done|]). split; [apply float_to_int_range|].
  unfold HashPoint, float_to_int.
  destruct (Prim2SF _) as [sg|sg| |s m e] eqn:Hsf.
  - unfold trunc. by rewrite Hsf.
  - unfold trunc. by rewrite Hsf.
  - unfold trunc. by rewrite Hsf.
  - by rewrite (trunc_finite _ _ _ _ Hsf).
Qed.

End Keys.

(** ** ReadMsh: the vertex table *)

Section Table.
Context {N : Type} `{!Nurbs.ops N}.

Lemma mapM_result_Ok {A B} (f : A → result B) l k :
  mapM f l = Ok k ↔ Forall2 (λ a b, f a = Ok b) l k.
Proof.
  revert k. induction l as [|a l IH]; intros k; simpl.
  - split; [intros [= <-]; constructor|by inversion 1].
  - split.
    + intros (b & Hb & (k' & Hk' & [= <-])%bind_Ok)%bind_Ok.
      constructor; [done|]. by apply IH.
    + inversion 1 as [|? b ? k' Hb Hk']; subst. rewrite Hb. simpl.
      apply IH in Hk'. by rewrite Hk'.
Qed.

Lemma mapM_result_Panic {A B} (f : A → result B) l e :
  Exists (λ a, f a = Panic e) l →
  Forall (λ a, f a = Panic e ∨ ∃ b, f a = Ok b) l →
  mapM f l = Panic e.
Proof.
  induction l as [|a l IH]; intros Hex Hall; [by inversion Hex|].
  apply Forall_cons in Hall as [[Ha|[b Hb]] Hall]; simpl.
  - by rewrite Ha.
  - rewrite Hb. simpl. rewrite IH; [done| |done].
    apply Exists_cons in Hex as [?|?]; [congruence|done].
Qed.

Lemma vertex_row_eq v :
  vertex_row v =
    if decide (4 ≤ length (Vert.C v))%nat then Ok (take 4 (Vert.C v))
    else Panic IndexOutOfRange.
Proof.
  unfold vertex_row. by destruct (Vert.C v) as [|a [|b [|c [|d l]]]].
Qed.

(** C9: [ReadMsh] reads [C[0]] to [C[3]] of every vertex.  With at least
    four coordinates in every vertex all reads are in range and the table
    holds the first four of each; a vertex with fewer makes the read
    panic with an index out of range, as for the file
    [{"verts":[{"id":0,"tag":0,"c":[1,2]}]}], which decodes without error. *)
Theorem reads_four_coordinates (dat : Data.t) (rf : string → option content) fnk :
  Forall (λ v, (4 ≤ length (Vert.C v))%nat) (Data.Verts dat) →
  mapM vertex_row (Data.Verts dat) = Ok ((λ v, take 4 (Vert.C v)) <$> Data.Verts dat)
  ∧ (∀ dat', Exists (λ v, (length (Vert.C v) < 4)%nat) (Data.Verts dat') →
       read_data (N:=N) dat' = Panic IndexOutOfRange)
  ∧ (rf (fnk +:+ ".msh") = Some (Text short_vertex_file) →
       Unmarshal (Text short_vertex_file) = Some (Data.mk [Vert.mk 0 0 [1; 2]%float] [])
       ∧ ReadMsh (N:=N) rf fnk = Panic IndexOutOfRange).
Proof.
  intros Hall. split_and!.
  - apply mapM_result_Ok, Forall2_fmap_r, Forall_Forall2_diag.
    eapply Forall_impl; [done|]. intros v Hv. simpl in Hv.
    rewrite vertex_row_eq. by rewrite decide_True.
  - intros dat' Hex. unfold read_data.
    rewrite (mapM_result_Panic _ _ IndexOutOfRange); [done| |].
    + eapply Exists_impl; [done|]. intros v Hv. simpl in Hv.
      rewrite vertex_row_eq. rewrite decide_False; [done|lia].
    + apply Forall_forall. intros v _. rewrite vertex_row_eq.
      case_decide; eauto.
  - intros Hrf. split; [done|]. unfold ReadMsh. by rewrite Hrf.
Qed.

(** The table has one row per entry of ["verts"], in the order of the list;
    the field [Id] is not read. *)
Lemma table_rows (vs : list Vert.t) tbl :
  mapM vertex_row vs = Ok tbl →
  length tbl = length vs
  ∧ ∀ i v, vs !! i = Some v → tbl !! i = Some (take 4 (Vert.C v)) ∧ length (Vert.C v) ≥ 4.
Proof.
  intros Htbl%mapM_result_Ok. split; [symmetry; by eapply Forall2_length|].
  intros i v Hi. destruct (Forall2_lookup_l _ _ _ _ _ Htbl Hi) as (r & Hr & Hv).
  rewrite vertex_row_eq in Hv. case_decide; [|done]. injection Hv as <-. split; [done|lia].
Qed.

(** C5, as the code has it: the table of [ReadMsh] is indexed by the
    position of a vertex in the ["verts"] list.  The [Id] fields play no
    part: two documents that differ in them only are read alike, and nothing
    is rejected on their account.  When every [Id] is the position of its
    vertex, as in the documents of [WriteMshD], the row at index [Id] holds
    the coordinates of that vertex. *)
Theorem table_by_position (vs vs' : list Vert.t) (ns : list NurbsD.t) tbl :
  mapM vertex_row vs = Ok tbl →
  Vert.C <$> vs' = Vert.C <$> vs →
  (length tbl = length vs
   ∧ ∀ i v, vs !! i = Some v → tbl !! i = Some (take 4 (Vert.C v)))
  ∧ read_data (N:=N) (Data.mk vs' ns) = read_data (N:=N) (Data.mk vs ns)
  ∧ (Vert.Id <$> vs = seqZ 0 (Z.of_nat (length vs)) →
     ∀ v, v ∈ vs → tbl !! Z.to_nat (Vert.Id v) = Some (take 4 (Vert.C v))).
Proof.
  intros Htbl HC. destruct (table_rows _ _ Htbl) as [Hlen Hrows]. split_and!.
  - done.
  - intros i v Hi. by apply Hrows.
  - unfold read_data. simpl.
    assert (mapM vertex_row vs' = mapM vertex_row vs) as ->; [|done].
    assert (∀ a b : Vert.t, Vert.C a = Vert.C b → vertex_row a = vertex_row b) as Hrow
      by (intros a b Hab; unfold vertex_row; by rewrite Hab).
    clear -HC Hrow. revert vs HC. induction vs' as [|v' vs' IH]; intros [|v vs] HC;
      try done.
    injection HC as Hc HC.
    change (mapM vertex_row (v' :: vs')) with
      (vertex_row v' ≫= λ y, mapM vertex_row vs' ≫= λ k, mret (y :: k)).
    change (mapM vertex_row (v :: vs)) with
      (vertex_row v ≫= λ y, mapM vertex_row vs ≫= λ k, mret (y :: k)).
    by rewrite (Hrow _ _ Hc), (IH vs HC).
  - intros Hids v [i Hi]%list_elem_of_lookup.
    assert (Vert.Id v = Z.of_nat i) as ->.
    { assert ((Vert.Id <$> vs) !! i = Some (Vert.Id v)) as Hl
        by (by rewrite list_lookup_fmap, Hi).
      rewrite Hids in Hl. apply lookup_seqZ in Hl. lia. }
    rewrite Nat2Z.id. by apply Hrows.
Qed.

Lemma decode_field_absent {A} (dec : json → option A) zero field o :
  field_values field o = [] → decode_field dec zero field o = Some zero.
Proof. unfold decode_field. by intros ->. Qed.

(** C4, as the code has it: for a file that is a JSON object without a key
    matching the field [Nurbss], [json.Unmarshal] leaves the list of shapes
    empty and reports no error on that account; [ReadMsh] then returns an
    empty list of objects when every vertex has its four coordinates.  The
    failure naming the file is the one raised when [json.Unmarshal] reports
    an error. *)
Theorem missing_nurbss_reads_empty (rf : string → option content) fnk o :
  rf (fnk +:+ ".msh") = Some (Text (JObj o)) →
  field_values "Nurbss" o = [] →
  (∀ dat, Unmarshal (Text (JObj o)) = Some dat →
     Data.Nurbss dat = []
     ∧ (Forall (λ v, (4 ≤ length (Vert.C v))%nat) (Data.Verts dat) →
        ReadMsh (N:=N) rf fnk = Ok []))
  ∧ (Unmarshal (Text (JObj o)) = None →
     ReadMsh (N:=N) rf fnk = Panic (DecodeFailure (fnk +:+ ".msh"))).
Proof.
  intros Hrf Hno. split.
  - intros dat Hdat.
    assert (Data.Nurbss dat = []) as Hns.
    { unfold Unmarshal, decode_Data in Hdat.
      rewrite (decode_field_absent _ _ "Nurbss" o Hno) in Hdat.
      destruct (decode_field _ _ _ _) as [vs|]; [|done]. simpl in Hdat.
      by injection Hdat as <-. }
    split; [done|]. intros Hall. unfold ReadMsh. rewrite Hrf, Hdat.
    unfold read_data. rewrite Hns.
    assert (mapM vertex_row (Data.Verts dat) =
            Ok ((λ v, take 4 (Vert.C v)) <$> Data.Verts dat)) as ->; [|done].
    apply mapM_result_Ok, Forall2_fmap_r, Forall_Forall2_diag.
    eapply Forall_impl; [done|]. intros v Hv. simpl in Hv.
    rewrite vertex_row_eq. by rewrite decide_True.
  - intros Herr. unfold ReadMsh. by rewrite Hrf, Herr.
Qed.

End Table.

(** ** Reading back what WriteMshD prints *)

Section Decode.

Lemma mapM_fmap_Some {A B} (enc : A → B) (dec : B → option A) (l : list A) :
  Forall (λ a, dec (enc a) = Some a) l → mapM dec (enc <$> l) = Some l.
Proof.
  intros Hall. apply mapM_Some_2, Forall2_fmap_l, Forall_Forall2_diag. done.
Qed.

Lemma decode_ints l : decode_slice decode_int (JArr (jint <$> l)) = Some l.
Proof. simpl. apply mapM_fmap_Some, Forall_forall. done. Qed.

Lemma decode_floats l :
  all_finite l = true → decode_slice decode_float64 (JArr (jfloat <$> l)) = Some l.
Proof.
  intros Hfin. simpl. apply mapM_fmap_Some, Forall_forall. intros f Hf. simpl.
  unfold all_finite in Hfin. rewrite forallb_forall in Hfin.
  rewrite Hfin; [done|]. by apply list_elem_of_In.
Qed.

Lemma decode_Vert_json v :
  all_finite (Vert.C v) = true → decode_Vert (Vert_json v) = Some v.
Proof.
  intros Hfin. destruct v as [id tag c]. unfold Vert_json, decode_Vert.
  change (decode_field decode_int 0 "Id" _) with (Some id).
  change (decode_field decode_int 0 "Tag" _) with (Some tag).
  change (decode_field (decode_slice decode_float64) [] "C" _)
    with (decode_slice decode_float64 (JArr (jfloat <$> c))).
  simpl in Hfin. by rewrite (decode_floats _ Hfin).
Qed.

Lemma decode_knots kss :
  forallb all_finite kss = true →
  decode_slice (decode_slice decode_float64) (JArr ((λ ks, JArr (jfloat <$> ks)) <$> kss))
    = Some kss.
Proof.
  intros Hfin. simpl. apply mapM_fmap_Some, Forall_forall. intros ks Hks.
  apply decode_floats. rewrite forallb_forall in Hfin. apply Hfin.
  by apply list_elem_of_In.
Qed.

Lemma decode_NurbsD_json d :
  forallb all_finite (NurbsD.Knots d) = true → decode_NurbsD (NurbsD_json d) = Some d.
Proof.
  intros Hfin. destruct d as [id g ords kss cs]. unfold NurbsD_json, decode_NurbsD.
  change (decode_field decode_int 0 "Id" _) with (Some id).
  change (decode_field decode_int 0 "Gnd" _) with (Some g).
  change (decode_field (decode_slice decode_int) [] "Ords" _)
    with (decode_slice decode_int (JArr (jint <$> ords))).
  change (decode_field (decode_slice (decode_slice decode_float64)) [] "Knots" _)
    with (decode_slice (decode_slice decode_float64)
            (JArr ((λ ks, JArr (jfloat <$> ks)) <$> kss))).
  change (decode_field (decode_slice decode_int) [] "Ctrls" _)
    with (decode_slice decode_int (JArr (jint <$> cs))).
  simpl in Hfin. by rewrite !decode_ints, (decode_knots _ Hfin).
Qed.

(** A document with finite numbers is read back as it was printed. *)
Lemma Unmarshal_Msh_text m :
  Msh_finite m = true →
  Unmarshal (Msh_text m) = Some (Data.mk (Msh.verts m) (Msh.nurbss m)).
Proof.
  intros Hfin. unfold Msh_text. rewrite Hfin.
  unfold Msh_finite in Hfin. apply andb_prop in Hfin as [Hv Hn].
  rewrite forallb_forall in Hv, Hn.
  unfold Unmarshal, Msh_json, decode_Data.
  change (decode_field (decode_slice decode_Vert) [] "Verts" _)
    with (decode_slice decode_Vert (JArr (Vert_json <$> Msh.verts m))).
  change (decode_field (decode_slice decode_NurbsD) [] "Nurbss" _)
    with (decode_slice decode_NurbsD (JArr (NurbsD_json <$> Msh.nurbss m))).
  simpl. rewrite !mapM_fmap_Some; [done| |].
  - apply Forall_forall. intros v Hv'. apply decode_Vert_json, Hv.
    by apply list_elem_of_In.
  - apply Forall_forall. intros d Hd. apply decode_NurbsD_json, Hn.
    by apply list_elem_of_In.
Qed.

End Decode.

(** ** Round trip *)

Section RoundTrip.
Context {N : Type} `{!Nurbs.ops N}.
Implicit Types (nurbss : list N) (o : N) (doc : Msh.t).

Lemma knots_of_lookup o ks :
  knots_of o = Ok ks ↔
    length ks = Z.to_nat (Nurbs.gnd o)
    ∧ ∀ d, 0 ≤ d < Nurbs.gnd o →
        ∃ bd, Nurbs.b o !! Z.to_nat d = Some bd ∧ ks !! Z.to_nat d = Some (Bspline.T bd).
Proof.
  unfold knots_of. rewrite mapM_result_Ok. split.
  - intros HF. pose proof (Forall2_length _ _ _ HF) as Hlen.
    rewrite length_seqZ in Hlen. split; [done|]. intros d Hd.
    destruct (Forall2_lookup_l _ _ _ (Z.to_nat d) d HF) as (kd & Hkd & Hb).
    { apply lookup_seqZ. lia. }
    apply bind_Ok in Hb as (bd & [_ Hbd]%index_Ok & [= <-]). eauto.
  - intros [Hlen Hall]. apply Forall2_same_length_lookup. split.
    { by rewrite length_seqZ. }
    intros i d kd [-> Hi]%lookup_seqZ Hkd.
    destruct (Hall (0 + Z.of_nat i)) as (bd & Hbd & Hkd'); [lia|].
    replace (Z.to_nat (0 + Z.of_nat i)) with i in * by lia.
    assert (index (Nurbs.b o) (0 + Z.of_nat i) = Ok bd) as ->.
    { apply index_Ok. split; [lia|]. by replace (Z.to_nat (0 + Z.of_nat i)) with i by lia. }
    simpl. congruence.
Qed.

Lemma coords_inj x y : coords x = coords y → x = y.
Proof. destruct x, y. by intros [= -> -> -> ->]. Qed.

Lemma mapM_same_shape (read : NurbsD.t → result N) nurbss (ds : list NurbsD.t) :
  length ds = length nurbss →
  (∀ k o, nurbss !! k = Some o →
     ∃ d o', ds !! k = Some d ∧ read d = Ok o' ∧ same_shape o o') →
  ∃ os', mapM read ds = Ok os' ∧ Forall2 same_shape nurbss os'.
Proof.
  revert nurbss. induction ds as [|d ds IH]; intros [|o os] Hlen Hall; try done.
  - exists []. split; [done|constructor].
  - destruct (Hall 0%nat o eq_refl) as (d' & o' & [= <-] & Hd & Hsame).
    destruct (IH os) as (os' & Hos' & HF).
    { simpl in Hlen. lia. }
    { intros k o1 Hk. apply (Hall (S k) o1 Hk). }
    exists (o' :: os'). split; [|by constructor].
    simpl. rewrite Hd. simpl. by rewrite Hos'.
Qed.

Context (L : laws).

(** One shape: what [ReadMsh] builds from the entry printed for [o]. *)
Lemma read_nurbs_same vt nurbss k o ks :
  keys_separate nurbss → rebuildable o →
  nurbss !! k = Some o → knots_of o = Ok ks →
  let s := sweep_all vt nurbss in
  ∃ o', read_nurbs (Vert.C <$> printed s) (NurbsD_of (verts s) (Z.of_nat k) o ks) = Ok o'
        ∧ same_shape o o'.
Proof.
  intros Hsep [Hn (ks' & o0 & Hks' & Hinit & Hn0)] Hk Hks s.
  assert (ks' = ks) as -> by congruence.
  pose proof (swept_all vt nurbss) as Hs. fold s in Hs.
  destruct (Init_shape _ _ _ _ Hinit) as [Hg0 Hd0].
  (* the control ids index the table *)
  assert (∀ ijk, ijk ∈ lattice o →
            ∃ i v, verts s !! hash (GetQ3 o ijk) = Some (Z.of_nat i)
                   ∧ printed s !! i = Some v
                   ∧ Vert.C v = coords (GetQ3 o ijk)) as Hpt.
  { intros ijk Hijk.
    assert (GetQ3 o ijk ∈ all_points nurbss) as Hin.
    { apply elem_of_all_points. exists o, ijk.
      split_and!; [by eapply list_elem_of_lookup_2|done|done]. }
    assert (is_Some (verts s !! hash (GetQ3 o ijk))) as [c Hc].
    { apply (swept_seen _ _ _ _ Hs), list_elem_of_fmap. eauto. }
    pose proof Hc as (i & v & -> & Hi & Hkey)%(swept_map _ _ _ Hs).
    exists i, v. split_and!; [done|done|].
    destruct (swept_from _ _ _ Hs v) as (x & Hx & Hv); [by eapply list_elem_of_lookup_2|].
    rewrite Hv in Hkey |- *. simpl in *. rewrite Vert_key_coords in Hkey.
    by rewrite (Hsep x (GetQ3 o ijk) Hx Hin Hkey). }
  destruct (SetControl_total o0 (Vert.C <$> printed s) (ctrls_of (verts s) o))
    as [o' Hset].
  { unfold ctrls_of. rewrite length_fmap, length_lattice, !Hn0 by lia.
    pose proof (Hn 0). pose proof (Hn 1). pose proof (Hn 2).
    rewrite !Nat2Z.inj_mul, !Z2Nat.id by lia. lia. }
  { unfold ctrls_of. apply Forall_fmap, Forall_forall. intros ijk Hijk. simpl.
    destruct (Hpt ijk Hijk) as (i & v & Hm & Hi & Hv).
    unfold map_get. rewrite Hm. simpl. split; [lia|].
    exists (Vert.C v). rewrite Nat2Z.id, list_lookup_fmap, Hi. split; [done|].
    by rewrite Hv. }
  exists o'. split.
  { unfold read_nurbs, NurbsD_of. simpl. rewrite Hinit. simpl. done. }
  destruct (SetControl_shape _ _ _ _ Hset) as (Hg & Hb & Hp & Hn').
  unfold same_shape. split_and!.
  - congruence.
  - intros d Hd. rewrite Hp. destruct (Hd0 d) as (bd & Hord & _); [lia|].
    assert (Z.to_nat d < 3)%nat as Hlt by (apply lookup_lt_Some in Hord; simpl in Hord; lia).
    assert (d = 0 ∨ d = 1 ∨ d = 2) as [->|[->| ->]] by lia;
      simpl in Hord; congruence.
  - rewrite Hks. apply knots_of_lookup. rewrite Hg, Hb, Hg0.
    apply knots_of_lookup in Hks as [Hlen _]. split; [done|].
    intros d Hd. destruct (Hd0 d Hd) as (bd & _ & ? & ?). eauto.
  - intros d Hd. rewrite Hn'. by apply Hn0.
  - intros i j k' Hi Hj Hk'.
    destruct (SetControl_binds _ _ _ _ i j k' Hset) as (c & Hc & Hc0 & Hrow);
      [rewrite Hn0; lia..|].
    assert (position o0 i j k' = position o i j k') as Hpos
      by (unfold position; rewrite !Hn0; [done|lia|lia]).
    rewrite Hpos in Hc. unfold ctrls_of in Hc.
    rewrite list_lookup_fmap, (lookup_lattice o i j k' Hi Hj Hk') in Hc.
    simpl in Hc. injection Hc as <-.
    destruct (Hpt (i, j, k')) as (i0 & v & Hm & Hi0 & Hv).
    { apply elem_of_lattice. simpl. lia. }
    simpl in Hm, Hv. unfold map_get in Hrow. rewrite Hm in Hrow. simpl in Hrow.
    rewrite Nat2Z.id, list_lookup_fmap, Hi0 in Hrow. simpl in Hrow.
    apply coords_inj. congruence.
Qed.

(** C1, as the code has it: a list of shapes written by [WriteMshD] and
    read back by [ReadMsh] from the file written gives as many objects, in
    the same order, each with the dimension, orders, knots, lattice extents
    and control points of the original, provided that control points with
    the same [HashPoint] key are the same point, that all coordinates and
    knots are finite numbers, and that the collaborator keeps what it is
    given ([laws]) and derives the extents of each shape from its knots and
    orders ([rebuildable]). *)
Theorem round_trip (rf : string → option content) dirout fnk nurbss vt ct doc :
  WriteMshD dirout fnk nurbss vt ct = Ok doc →
  rf (fnk +:+ ".msh") = Some (Msh_text doc) →
  Msh_finite doc = true →
  keys_separate nurbss →
  Forall rebuildable nurbss →
  ∃ nurbss', ReadMsh rf fnk = Ok nurbss' ∧ Forall2 same_shape nurbss nurbss'.
Proof.
  intros Hdoc Hrf Hfin Hsep Hreb.
  destruct (WriteMshD_Ok _ _ _ _ _ _ Hdoc) as (Hv & [Hnl Hn] & _).
  pose proof (swept_all vt nurbss) as Hs.
  unfold ReadMsh. rewrite Hrf, (Unmarshal_Msh_text _ Hfin). unfold read_data. simpl.
  assert (mapM vertex_row (Msh.verts doc) = Ok (Vert.C <$> Msh.verts doc)) as ->.
  { apply mapM_result_Ok, Forall2_fmap_r, Forall_Forall2_diag, Forall_forall.
    intros v Hin. rewrite Hv in Hin.
    destruct (swept_from _ _ _ Hs v Hin) as (x & _ & ->). done. }
  simpl. rewrite Hv. apply mapM_same_shape; [done|].
  intros k o Hk. destruct (Hn k o Hk) as (ks & Hks & Hd).
  destruct (read_nurbs_same vt nurbss k o ks) as (o' & Hread & Hsame); try done.
  { rewrite Forall_forall in Hreb. apply Hreb. by eapply list_elem_of_lookup_2. }
  eauto.
Qed.

End RoundTrip.

(** ** The collaborator [Lattice] keeps what it is given *)

Section LatticeLaws.

Lemma coords_row_point r : length r = 4%nat → coords (Lattice.row_point r) = r.
Proof. by destruct r as [|a [|b [|c [|d [|]]]]]. Qed.

Lemma at_lookup (l : list Z) d :
  0 ≤ d < Z.of_nat (length l) → l !! Z.to_nat d = Some (Lattice.at_ l d).
Proof.
  intros Hd. unfold Lattice.at_. rewrite decide_True by lia.
  apply list_lookup_lookup_total_lt. lia.
Qed.

Lemma bound_spec tbl c :
  Lattice.bound tbl c = true ↔ 0 ≤ c ∧ ∃ r, tbl !! Z.to_nat c = Some r ∧ length r = 4%nat.
Proof.
  unfold Lattice.bound. rewrite andb_true_iff, bool_decide_eq_true.
  destruct (tbl !! Z.to_nat c) as [r|].
  - rewrite bool_decide_eq_true. split.
    + intros [? ?]. eauto.
    + intros [? (r' & [= <-] & ?)]. done.
  - split; [intros [_ ?]; done|]. intros [_ (r' & ? & _)]. done.
Qed.

Lemma Lattice_SetControl_Ok o tbl cs o' :
  Lattice.SetControl o tbl cs = Ok o' ↔
    (Z.of_nat (length cs) = Lattice.at_ (Lattice.n o) 0 * Lattice.at_ (Lattice.n o) 1
                            * Lattice.at_ (Lattice.n o) 2
     ∧ Forall (λ c, 0 ≤ c ∧ ∃ r, tbl !! Z.to_nat c = Some r ∧ length r = 4%nat) cs)
    ∧ o' = Lattice.mk (Lattice.gnd o) (Lattice.p o) (Lattice.n o) (Lattice.b o) tbl cs
                      (Lattice.elems o) (Lattice.enodes o).
Proof.
  unfold Lattice.SetControl.
  destruct (bool_decide _ && forallb _ _) eqn:Hchk.
  - apply andb_true_iff in Hchk as [Hlen%bool_decide_eq_true Hall].
    rewrite forallb_forall in Hall. split; [intros [= <-]|by intros [_ ->]].
    split; [|done]. split; [done|]. apply Forall_forall. intros c Hc.
    apply bound_spec, Hall. by apply list_elem_of_In.
  - split; [done|]. intros [[Hlen Hall] _]. apply andb_false_iff in Hchk as [Hf|Hf].
    + apply bool_decide_eq_false in Hf. done.
    + assert (forallb (Lattice.bound tbl) cs = true); [|congruence].
      apply forallb_forall. intros c Hc. apply bound_spec.
      rewrite Forall_forall in Hall. apply Hall. by apply list_elem_of_In.
Qed.

Lemma Lattice_laws : laws (N:=Lattice.t).
Proof.
  split.
  - (* Init *)
    intros g ords ks o. simpl. unfold Lattice.Init. case_decide as Hg; [|done].
    intros [= <-]. simpl. split; [done|]. intros d Hd.
    destruct Hg as (Hg & Hlo & Hlk).
    exists (Bspline.mk (ks !!! Z.to_nat d)). split_and!.
    + rewrite at_lookup by lia. f_equal.
      assert (d = 0 ∨ d = 1 ∨ d = 2) as [->|[->| ->]] by lia;
        unfold Lattice.at_ at 2; simpl; by rewrite decide_True by lia.
    + rewrite list_lookup_fmap, lookup_take_lt by lia.
      rewrite list_lookup_lookup_total_lt by lia. done.
    + simpl. apply list_lookup_lookup_total_lt. lia.
  - (* SetControl keeps the shape *)
    intros o tbl cs o' [_ ->]%Lattice_SetControl_Ok. done.
  - (* SetControl binds the lattice *)
    intros o tbl cs o' i j k [[Hlen Hall] ->]%Lattice_SetControl_Ok. simpl.
    intros Hi Hj Hk. unfold position. simpl.
    set (n0 := Lattice.at_ (Lattice.n o) 0) in *.
    set (n1 := Lattice.at_ (Lattice.n o) 1) in *.
    set (n2 := Lattice.at_ (Lattice.n o) 2) in *.
    set (l := i + n0 * (j + n1 * k)).
    assert (0 ≤ l < Z.of_nat (length cs)) as Hl.
    { unfold l. rewrite Hlen.
      assert (0 ≤ n1 * k) by nia. assert (0 ≤ n0 * (j + n1 * k)) by nia.
      assert (n1 * k ≤ n1 * (n2 - 1)) by nia.
      assert (n0 * (j + n1 * k) ≤ n0 * (n1 * n2 - 1)) by nia. nia. }
    exists (Lattice.at_ cs l). rewrite at_lookup by done.
    rewrite Forall_forall in Hall.
    destruct (Hall (Lattice.at_ cs l)) as (Hc & r & Hr & Hr4).
    { eapply list_elem_of_lookup_2, at_lookup. done. }
    split_and!; [done|done|].
    unfold Lattice.GetQ, Lattice.GetQl. simpl. fold n0 n1 l.
    rewrite decide_True by lia.
    rewrite (list_lookup_total_correct _ _ _ Hr), coords_row_point; done.
  - (* SetControl accepts ids that index the table *)
    intros o tbl cs Hlen Hall. eexists. apply Lattice_SetControl_Ok. done.
Qed.

End LatticeLaws.

(** ** The sample shapes *)

Section Samples.

Lemma segments_written :
  WriteMshD "out" "segments" segments (Some segment_vtags) (Some segment_ctags)
    = Ok segments_doc.
Proof. vm_compute. reflexivity. Qed.

Lemma segments_keys_separate : keys_separate segments.
Proof.
  intros x y Hx Hy Hh.
  assert (all_points segments =
          [Point 0 0 0 1; Point 1 0 0 1; Point 1 0 0 1; Point 1 1 0 1]) as E
    by (vm_compute; reflexivity).
  rewrite E in Hx, Hy. clear E.
  repeat (apply elem_of_cons in Hx as [->|Hx]); [..|by apply elem_of_nil in Hx];
    repeat (apply elem_of_cons in Hy as [->|Hy]);
    try (by apply elem_of_nil in Hy); try reflexivity;
    vm_compute in Hh; discriminate.
Qed.

Lemma segment_rebuildable (o : Lattice.t) :
  o = segment_a ∨ o = segment_b → rebuildable o.
Proof.
  intros Ho. split.
  - intros d Hd. assert (d = 0 ∨ d = 1 ∨ d = 2) as [->|[->| ->]] by lia;
      destruct Ho as [->| ->]; vm_compute; discriminate.
  - exists [unit_knots], (Lattice.mk 1 [1; 0; 0] [2; 1; 1] [Bspline.mk unit_knots] [] [] [] []).
    split_and!.
    + destruct Ho as [->| ->]; vm_compute; reflexivity.
    + destruct Ho as [->| ->]; vm_compute; reflexivity.
    + intros d Hd. assert (d = 0 ∨ d = 1 ∨ d = 2) as [->|[->| ->]] by lia;
        destruct Ho as [->| ->]; reflexivity.
Qed.

Lemma segments_rebuildable : Forall rebuildable segments.
Proof. repeat constructor; apply segment_rebuildable; auto. Qed.

End Samples.

(** ** The theorems at the sample shapes and files *)

Section Instances.

(** The two segments are read back as they were written. *)
Lemma round_trip_segments :
  keys_separate segments ∧ Forall rebuildable segments
  ∧ Msh_finite segments_doc = true
  ∧ ∃ nurbss', ReadMsh segments_file "segments" = Ok nurbss'
               ∧ Forall2 same_shape segments nurbss'.
Proof.
  split; [apply segments_keys_separate|].
  split; [apply segments_rebuildable|].
  split; [vm_compute; reflexivity|].
  apply (round_trip Lattice_laws segments_file "out" "segments" segments
           (Some segment_vtags) (Some segment_ctags) segments_doc).
  - vm_compute. reflexivity.
  - reflexivity.
  - vm_compute. reflexivity.
  - apply segments_keys_separate.
  - apply segments_rebuildable.
Defined.

(** The short segment is not: its second control point, [(2^-14, 0, 0)],
    has the key of the first, [(0, 0, 0)], and is read back as the first. *)
Lemma short_segment_collapses :
  WriteMshD "out" "short" [short_segment] None None = Ok short_doc
  ∧ ReadMsh short_file "short" = Ok [short_read]
  ∧ Nurbs.GetQ short_segment 1 0 0 = Point 0x1p-14 0 0 1
  ∧ Nurbs.GetQ short_read 1 0 0 = Point 0 0 0 1
  ∧ ¬ ∃ nurbss', ReadMsh short_file "short" = Ok nurbss'
                 ∧ Forall2 same_shape [short_segment] nurbss'.
Proof.
  assert (ReadMsh short_file "short" = Ok [short_read]) as Hread
    by (vm_compute; reflexivity).
  split_and!; [vm_compute; reflexivity|done|reflexivity|reflexivity|].
  intros (os & Hos & Hsame). rewrite Hread in Hos. injection Hos as <-.
  apply Forall2_cons_1 in Hsame as [(_ & _ & _ & _ & HQ) _].
  specialize (HQ 1 0 0). simpl in HQ.
  assert (Lattice.GetQ short_read 1 0 0 = Lattice.GetQ short_segment 1 0 0) as E
    by (apply HQ; vm_compute; split; congruence).
  apply (f_equal (λ x, Prim2SF (x0 x))) in E. vm_compute in E. discriminate.
Qed.

Lemma dedup_ids_segments :
  (hash (GetQ3 segment_a (1, 0, 0)) = hash (GetQ3 segment_b (0, 0, 0)) → 1 = 1)
  ∧ (hash (GetQ3 segment_a (1, 0, 0)) ≠ hash (GetQ3 segment_b (0, 0, 0)) → 1 ≠ 1).
Proof.
  apply (dedup_ids "out" "segments" segments (Some segment_vtags) (Some segment_ctags)
           segments_doc
           0%nat segment_a (NurbsD.mk 0 1 [1; 0; 0] [unit_knots] [0; 1]) 1%nat (1, 0, 0) 1
           1%nat segment_b (NurbsD.mk 1 1 [1; 0; 0] [unit_knots] [1; 2]) 0%nat (0, 0, 0) 1);
    vm_compute; reflexivity.
Defined.

Lemma ids_dense_segments :
  Vert.Id <$> Msh.verts segments_doc = seqZ 0 (Z.of_nat (length (Msh.verts segments_doc)))
  ∧ Vert_key <$> Msh.verts segments_doc = discover [] (hash <$> all_points segments)
  ∧ NoDup (Vert_key <$> Msh.verts segments_doc)
  ∧ NurbsD.Id <$> Msh.nurbss segments_doc = seqZ 0 (Z.of_nat (length segments))
  ∧ (∀ k o, segments !! k = Some o →
       ∃ d, Msh.nurbss segments_doc !! k = Some d ∧ NurbsD.Id d = Z.of_nat k
            ∧ NurbsD.Gnd d = Nurbs.gnd o ∧ knots_of o = Ok (NurbsD.Knots d))
  ∧ Cell.id <$> Msh.cells segments_doc = seqZ 0 (Z.of_nat (element_count segments))
  ∧ (∀ k o eid e, segments !! k = Some o → Nurbs.Elements o !! eid = Some e →
       ∃ c, Msh.cells segments_doc !! cell_place segments k eid = Some c
            ∧ Cell.id c = Z.of_nat (element_count (take k segments)) + Z.of_nat eid
            ∧ Cell.nrb c = Z.of_nat k
            ∧ Cell.span c = e).
Proof.
  apply (ids_dense "out" "segments" segments (Some segment_vtags) (Some segment_ctags)).
  vm_compute. reflexivity.
Defined.

Lemma lattice_order_segment_b :
  (∀ s0, sweep_shape (Some segment_vtags) s0 segment_b =
           foldl (visit (Some segment_vtags)) s0 (GetQ3 segment_b <$> lattice segment_b))
  ∧ ∃ d, Msh.nurbss segments_doc !! 1%nat = Some d
      ∧ Z.of_nat (length (NurbsD.Ctrls d)) =
          Nurbs.n segment_b 0 * Nurbs.n segment_b 1 * Nurbs.n segment_b 2
      ∧ ∀ i j k,
          0 ≤ i < Nurbs.n segment_b 0 → 0 ≤ j < Nurbs.n segment_b 1 →
          0 ≤ k < Nurbs.n segment_b 2 →
          lattice segment_b !! position segment_b i j k = Some (i, j, k)
          ∧ NurbsD.Ctrls d !! position segment_b i j k =
              Some (map_get (verts (sweep_all (Some segment_vtags) segments))
                      (hash (Nurbs.GetQ segment_b i j k))).
Proof.
  apply (lattice_order "out" "segments" segments (Some segment_vtags)
           (Some segment_ctags) segments_doc 1%nat segment_b);
    vm_compute; (reflexivity || discriminate).
Defined.

Lemma default_tags_segments :
  (∀ v, v ∈ Msh.verts segments_doc →
     match segment_vtags !! Vert_key v with
     | None => Vert.Tag v = 0
     | Some val => Vert.Tag v = val
     end)
  ∧ (∀ x, x ∈ all_points segments →
       ∃ v, v ∈ Msh.verts segments_doc ∧ Vert_key v = hash x
            ∧ match segment_vtags !! hash x with
              | None => Vert.Tag v = 0
              | Some val => Vert.Tag v = val
              end)
  ∧ length (Msh.cells segments_doc) = element_count segments
  ∧ (∀ k o eid e, segments !! k = Some o → Nurbs.Elements o !! eid = Some e →
       ∃ c, Msh.cells segments_doc !! cell_place segments k eid = Some c
            ∧ Cell.nrb c = Z.of_nat k ∧ Cell.span c = e
            ∧ match segment_ctags !! cell_key (Z.of_nat k) (Z.of_nat eid) with
              | None => Cell.tag c = -1
              | Some val => Cell.tag c = val
              end)
  ∧ (∀ i c, Msh.cells segments_doc !! i = Some c →
       ∃ k o eid e,
         segments !! k = Some o ∧ Nurbs.Elements o !! eid = Some e
         ∧ i = cell_place segments k eid
         ∧ Cell.nrb c = Z.of_nat k ∧ Cell.span c = e
         ∧ match segment_ctags !! cell_key (Z.of_nat k) (Z.of_nat eid) with
           | None => Cell.tag c = -1
           | Some val => Cell.tag c = val
           end).
Proof.
  apply (default_tags "out" "segments" segments (Some segment_vtags)
           (Some segment_ctags) segments_doc).
  vm_compute. reflexivity.
Defined.

Lemma emission_lookup_hits_segments :
  ∃ c d v,
    verts (sweep_all (Some segment_vtags) segments) !! hash (GetQ3 segment_b (1, 0, 0))
      = Some c
    ∧ Msh.nurbss segments_doc !! 1%nat = Some d
    ∧ NurbsD.Ctrls d !! 1%nat = Some c
    ∧ 0 ≤ c
    ∧ Msh.verts segments_doc !! Z.to_nat c = Some v
    ∧ Vert.Id v = c
    ∧ Vert_key v = hash (GetQ3 segment_b (1, 0, 0)).
Proof.
  apply (emission_lookup_hits "out" "segments" segments (Some segment_vtags)
           (Some segment_ctags) segments_doc 1%nat segment_b 1%nat (1, 0, 0));
    vm_compute; reflexivity.
Defined.

Lemma HashPoint_exact_sample :
  HashPoint 1 2 3 = HashPoint 1 2 3
  ∧ HashPoint 1 2 3 = PointKeyer 10001 1000001 100000001 1 2 3
  ∧ (10001 <? 1000001)%float = true ∧ (1000001 <? 100000001)%float = true
  ∧ int_min ≤ HashPoint 1 2 3 ≤ int_max
  ∧ match Prim2SF (1 * 10001 + 2 * 1000001 + 3 * 100000001)%float with
    | S754_zero _ => HashPoint 1 2 3 = 0
    | S754_finite s m e =>
        let q := Z.quot (cond_Zopp s (Z.pos m) * 2 ^ Z.max 0 e) (2 ^ Z.max 0 (- e)) in
        HashPoint 1 2 3 = if decide (int_min ≤ q ≤ int_max) then q else int_min
    | S754_infinity _ | S754_nan => HashPoint 1 2 3 = int_min
    end.
Proof. apply (HashPoint_exact 1 2 3 1 2 3); reflexivity. Defined.

(** Keys of some points: the fraction of the combination is dropped, so the
    two ends of the short segment share the key [0]. *)
Example HashPoint_values :
  HashPoint 1 2 3 = 302010006 ∧ HashPoint 0 0 0 = 0 ∧ HashPoint 0x1p-14 0 0 = 0
  ∧ HashPoint (-1.5) 0 0 = -15001 ∧ HashPoint nan 0 0 = int_min.
Proof. vm_compute. done. Qed.

Lemma reads_four_coordinates_segments :
  Forall (λ v, (4 ≤ length (Vert.C v))%nat) (Msh.verts segments_doc)
  ∧ mapM vertex_row (Msh.verts segments_doc) =
      Ok ((λ v, take 4 (Vert.C v)) <$> Msh.verts segments_doc)
  ∧ ReadMsh (N:=Lattice.t) short_vertex_files "mesh" = Panic IndexOutOfRange.
Proof.
  assert (Forall (λ v, (4 ≤ length (Vert.C v))%nat) (Msh.verts segments_doc)) as Hfour
    by (repeat constructor).
  split; [exact Hfour|].
  destruct (reads_four_coordinates (N:=Lattice.t)
              (Data.mk (Msh.verts segments_doc) (Msh.nurbss segments_doc))
              short_vertex_files "mesh" Hfour) as (Hrows & _ & Hshort).
  split; [exact Hrows|]. apply Hshort. reflexivity.
Defined.

(** The file [{"verts":[]}] has no ["nurbss"] field and is read without
    failure, as no objects. *)
Lemma missing_nurbss_accepted :
  field_values "Nurbss" [("verts", JArr [])] = []
  ∧ ReadMsh (N:=Lattice.t) no_nurbss_files "mesh" = Ok []
  ∧ ReadMsh (N:=Lattice.t) no_nurbss_files "mesh" ≠ Panic (DecodeFailure "mesh.msh").
Proof. split_and!; [reflexivity|reflexivity|discriminate]. Qed.

Lemma missing_nurbss_reads_empty_sample :
  (∀ dat, Unmarshal (Text no_nurbss_file) = Some dat →
     Data.Nurbss dat = []
     ∧ (Forall (λ v, (4 ≤ length (Vert.C v))%nat) (Data.Verts dat) →
        ReadMsh (N:=Lattice.t) no_nurbss_files "mesh" = Ok []))
  ∧ (Unmarshal (Text no_nurbss_file) = None →
     ReadMsh (N:=Lattice.t) no_nurbss_files "mesh" = Panic (DecodeFailure ("mesh" +:+ ".msh"))).
Proof.
  apply (missing_nurbss_reads_empty (N:=Lattice.t) no_nurbss_files "mesh"
           [("verts", JArr [])]); reflexivity.
Defined.

(** The file [gap_doc] has the vertex ids [2] and [0].  It is read without
    failure, and the control points of the segment, which refer to id [0],
    get the coordinates of the vertex whose id is [2]. *)
Lemma gap_accepted :
  Vert.Id <$> Msh.verts gap_doc = [2; 0]
  ∧ mapM vertex_row (Msh.verts gap_doc) = Ok [[5; 0; 0; 1]; [7; 0; 0; 1]]%float
  ∧ ReadMsh gap_file "gap" = Ok [gap_read]
  ∧ Lattice.ctrls gap_read = [0; 0]
  ∧ Nurbs.GetQ gap_read 0 0 0 = Point 5 0 0 1
  ∧ Msh.verts gap_doc !! 0%nat = Some (Vert.mk 2 0 [5; 0; 0; 1]%float)
  ∧ Msh.verts gap_doc !! 1%nat = Some (Vert.mk 0 0 [7; 0; 0; 1]%float).
Proof. split_and!; vm_compute; reflexivity. Qed.

Lemma table_by_position_gap :
  (length [[5; 0; 0; 1]; [7; 0; 0; 1]]%float = length (Msh.verts gap_doc)
   ∧ ∀ i v, Msh.verts gap_doc !! i = Some v →
       [[5; 0; 0; 1]; [7; 0; 0; 1]]%float !! i = Some (take 4 (Vert.C v)))
  ∧ read_data (N:=Lattice.t)
      (Data.mk [Vert.mk 0 0 [5; 0; 0; 1]%float; Vert.mk 1 0 [7; 0; 0; 1]%float]
               (Msh.nurbss gap_doc))
    = read_data (N:=Lattice.t) (Data.mk (Msh.verts gap_doc) (Msh.nurbss gap_doc))
  ∧ (Vert.Id <$> Msh.verts gap_doc = seqZ 0 (Z.of_nat (length (Msh.verts gap_doc))) →
     ∀ v, v ∈ Msh.verts gap_doc →
       [[5; 0; 0; 1]; [7; 0; 0; 1]]%float !! Z.to_nat (Vert.Id v)
         = Some (take 4 (Vert.C v))).
Proof.
  apply (table_by_position (N:=Lattice.t) (Msh.verts gap_doc)
           [Vert.mk 0 0 [5; 0; 0; 1]%float; Vert.mk 1 0 [7; 0; 0; 1]%float]
           (Msh.nurbss gap_doc) [[5; 0; 0; 1]; [7; 0; 0; 1]]%float);
    reflexivity.
Defined.

End Instances.

(** * Further properties *)

(** ** The lattice traversal visits each control point once *)

Section Once.
Context {N : Type} `{!Nurbs.ops N}.

Lemma NoDup_lattice o : NoDup (lattice o).
Proof.
  unfold lattice. apply NoDup_bind; [| |apply NoDup_seqZ].
  - intros k1 k2 [[i j] k] _ _
      (j1 & (i1 & [= _ _ ->]%list_elem_of_singleton & _)%list_elem_of_bind & _)%list_elem_of_bind
      (j2 & (i2 & [= _ _ ->]%list_elem_of_singleton & _)%list_elem_of_bind & _)%list_elem_of_bind.
    done.
  - intros k _. apply NoDup_bind; [| |apply NoDup_seqZ].
    + intros j1 j2 [[i j] k'] _ _
        (i1 & [= _ -> _]%list_elem_of_singleton & _)%list_elem_of_bind
        (i2 & [= _ -> _]%list_elem_of_singleton & _)%list_elem_of_bind.
      done.
    + intros j _. apply NoDup_bind; [| |apply NoDup_seqZ].
      * intros i1 i2 [[i j'] k'] _ _ [= -> _ _]%list_elem_of_singleton
          [= -> _ _]%list_elem_of_singleton. done.
      * intros. apply NoDup_singleton.
Qed.

(** Each pass of [WriteMshD] over a shape meets every lattice index
    [(i, j, k)] with [0 <= i < n0], [0 <= j < n1], [0 <= k < n2] exactly
    once and no other index, and meets it at step [i + n0*(j + n1*k)]. *)
Theorem lattice_once (o : N) :
  NoDup (lattice o)
  ∧ (∀ i j k, (i, j, k) ∈ lattice o ↔
       0 ≤ i < Nurbs.n o 0 ∧ 0 ≤ j < Nurbs.n o 1 ∧ 0 ≤ k < Nurbs.n o 2)
  ∧ (∀ t i j k, lattice o !! t = Some (i, j, k) ↔
       (0 ≤ i < Nurbs.n o 0 ∧ 0 ≤ j < Nurbs.n o 1 ∧ 0 ≤ k < Nurbs.n o 2)
       ∧ t = position o i j k).
Proof.
  split; [apply NoDup_lattice|]. split.
  - intros i j k. apply (elem_of_lattice o (i, j, k)).
  - intros t i j k. split.
    + intros Ht.
      assert ((i, j, k) ∈ lattice o) as Hin by (by eapply list_elem_of_lookup_2).
      apply (elem_of_lattice o (i, j, k)) in Hin. simpl in Hin.
      destruct Hin as (Hi & Hj & Hk). split; [done|].
      eapply NoDup_lookup; [apply NoDup_lattice|done|by apply lookup_lattice].
    + intros [(Hi & Hj & Hk) ->]. by apply lookup_lattice.
Qed.

(** A shape with an extent that is zero or negative has no lattice point:
    the first sweep passes it by, its ["ctrls"] list is empty, and the
    vertices of the document are those of the other shapes. *)
Theorem empty_lattice (o : N) :
  Nurbs.n o 0 ≤ 0 ∨ Nurbs.n o 1 ≤ 0 ∨ Nurbs.n o 2 ≤ 0 →
  lattice o = []
  ∧ (∀ vs, ctrls_of vs o = [])
  ∧ (∀ vt l1 l2, sweep_all vt (l1 ++ o :: l2) = sweep_all vt (l1 ++ l2)).
Proof.
  intros Hn.
  assert (lattice o = []) as Hl.
  { apply length_zero_iff_nil. rewrite length_lattice.
    destruct Hn as [?|[?|?]]; [replace (Z.to_nat (Nurbs.n o 0)) with 0%nat by lia
                              |replace (Z.to_nat (Nurbs.n o 1)) with 0%nat by lia
                              |replace (Z.to_nat (Nurbs.n o 2)) with 0%nat by lia]; lia. }
  split; [done|]. split.
  - intros vs. unfold ctrls_of. by rewrite Hl.
  - intros vt l1 l2. unfold sweep_all. rewrite !foldl_app. simpl.
    unfold sweep_shape at 2. by rewrite Hl.
Qed.

End Once.

(** ** Shapes that WriteMshD cannot print *)

Section Panics.
Context {N : Type} `{!Nurbs.ops N}.
Implicit Types (nurbss : list N) (o : N) (doc : Msh.t).

Lemma knots_of_writable o ks :
  knots_of o = Ok ks → Nurbs.gnd o ≤ Z.of_nat (length (Nurbs.b o)).
Proof.
  intros [_ Hall]%knots_of_lookup.
  destruct (decide (Nurbs.gnd o ≤ 0)) as [?|Hpos]; [lia|].
  destruct (Hall (Nurbs.gnd o - 1)) as (bd & Hbd%lookup_lt_Some & _); lia.
Qed.

Lemma WriteMshD_writable dirout fnk nurbss vt ct doc :
  WriteMshD dirout fnk nurbss vt ct = Ok doc → Forall writable nurbss.
Proof.
  intros (_ & [_ Hn] & [_ Hc])%WriteMshD_Ok. apply Forall_forall.
  intros o [k Hk]%list_elem_of_lookup. split.
  - destruct (Hn k o Hk) as (ks & Hks & _). by eapply knots_of_writable.
  - destruct (decide (length (Nurbs.Elements o) ≤ length (Nurbs.Enodes o))%nat)
      as [?|Hgt]; [done|].
    destruct (lookup_lt_is_Some_2 (Nurbs.Elements o) (length (Nurbs.Enodes o)))
      as [el Hel]; [lia|].
    destruct (Hc k o _ el Hk Hel) as (en & Hen%lookup_lt_Some & _). lia.
Qed.

(** [WriteMshD] prints a document only when every shape has a B-spline for
    each of its [gnd] directions and the local nodes of each of its
    elements: when some shape has [gnd] beyond its B-splines (line 67 reads
    [o.b[d]] for each [d < o.gnd]) or more elements than lists of local
    nodes (line 118 reads [enodes[eid]] for each element), the call panics
    and nothing is printed. *)
Theorem unwritable_shape_panics dirout fnk nurbss vt ct o :
  o ∈ nurbss →
  Z.of_nat (length (Nurbs.b o)) < Nurbs.gnd o
  ∨ (length (Nurbs.Enodes o) < length (Nurbs.Elements o))%nat →
  (∃ e, WriteMshD dirout fnk nurbss vt ct = Panic e)
  ∧ ∀ doc, WriteMshD dirout fnk nurbss vt ct ≠ Ok doc.
Proof.
  intros Ho Hbad.
  assert (∀ doc, WriteMshD dirout fnk nurbss vt ct ≠ Ok doc) as Hno.
  { intros doc Hall%WriteMshD_writable. rewrite Forall_forall in Hall.
    destruct (Hall o Ho) as [Hb He]. destruct Hbad; lia. }
  split; [|done].
  destruct (WriteMshD dirout fnk nurbss vt ct) as [doc|e] eqn:Hw; [|by exists e].
  by destruct (Hno doc).
Qed.

End Panics.

(** ** The cells *)

Section Cells.
Context {N : Type} `{!Nurbs.ops N}.
Implicit Types (nurbss : list N) (o : N) (doc : Msh.t).

(** What is stored for a key after the first sweep: the id of the printed
    vertex with that key when some control point has the key, nothing
    otherwise. *)
Lemma swept_lookup vt nurbss h :
  let s := sweep_all vt nurbss in
  (h ∈ hash <$> all_points nurbss →
     ∃ i v, verts s !! h = Some (Z.of_nat i) ∧ printed s !! i = Some v
            ∧ Vert.Id v = Z.of_nat i ∧ Vert_key v = h)
  ∧ (h ∉ hash <$> all_points nurbss → verts s !! h = None).
Proof.
  intros s. pose proof (swept_all vt nurbss) as Hs. fold s in Hs. split.
  - intros [c Hc]%(swept_seen _ _ _ _ Hs).
    pose proof Hc as (i & v & -> & Hi & Hkey)%(swept_map _ _ _ Hs).
    exists i, v. split_and!; try done. by eapply swept_ids.
  - intros Hnin. destruct (verts s !! h) as [c|] eqn:Hc; [|done].
    exfalso. apply Hnin, (swept_seen _ _ _ _ Hs). eauto.
Qed.

(** Every printed cell is the cell of one element of one shape: its
    ["nrb"] is the id of the entry of that shape in ["nurbss"], its ["part"]
    is [0], its ["geo"] is [18], its ["span"] is the span tuple of the
    element, and it has one vertex id for each local node of the element. *)
Theorem cells_listed dirout fnk nurbss vt ct doc c :
  WriteMshD dirout fnk nurbss vt ct = Ok doc →
  c ∈ Msh.cells doc →
  ∃ k o eid e en d,
    nurbss !! k = Some o ∧ Nurbs.Elements o !! eid = Some e
    ∧ Nurbs.Enodes o !! eid = Some en
    ∧ Msh.cells doc !! cell_place nurbss k eid = Some c
    ∧ Msh.nurbss doc !! k = Some d ∧ NurbsD.Id d = Cell.nrb c
    ∧ Cell.part c = 0 ∧ Cell.geo c = 18 ∧ Cell.span c = e
    ∧ length (Cell.verts c) = length en.
Proof.
  intros Hdoc [i Hi]%list_elem_of_lookup.
  destruct (WriteMshD_Ok _ _ _ _ _ _ Hdoc) as (_ & [_ Hn] & [Hcl Hc]).
  destruct (cell_place_surj nurbss i) as (k & o & eid & e & Hk & He & ->);
    [rewrite <-Hcl; by eapply lookup_lt_Some|].
  destruct (Hc k o eid e Hk He) as (en & Hen & Hc'). rewrite Hi in Hc'.
  injection Hc' as ->. destruct (Hn k o Hk) as (ks & _ & Hd).
  exists k, o, eid, e, en. eexists. split_and!; try done.
  simpl. by rewrite length_fmap.
Qed.

(** The vertex id printed for a local node of an element is the id of the
    printed vertex with the key of that node when some control point of some
    shape has that key; when none has, the lookup in the map gives the zero
    value and the id printed is [0]. *)
Theorem cell_vertex_ids dirout fnk nurbss vt ct doc k o eid e en j l :
  WriteMshD dirout fnk nurbss vt ct = Ok doc →
  nurbss !! k = Some o → Nurbs.Elements o !! eid = Some e →
  Nurbs.Enodes o !! eid = Some en → en !! j = Some l →
  ∃ c id,
    Msh.cells doc !! cell_place nurbss k eid = Some c
    ∧ Cell.verts c !! j = Some id
    ∧ (hash (Nurbs.GetQl o l) ∈ hash <$> all_points nurbss →
         0 ≤ id ∧ ∃ v, Msh.verts doc !! Z.to_nat id = Some v ∧ Vert.Id v = id
                       ∧ Vert_key v = hash (Nurbs.GetQl o l))
    ∧ (hash (Nurbs.GetQl o l) ∉ hash <$> all_points nurbss → id = 0).
Proof.
  intros Hdoc Hk He Hen Hj.
  destruct (WriteMshD_Ok _ _ _ _ _ _ Hdoc) as (Hv & _ & [_ Hc]).
  destruct (Hc k o eid e Hk He) as (en' & Hen' & Hc').
  assert (en' = en) as -> by congruence.
  destruct (swept_lookup vt nurbss (hash (Nurbs.GetQl o l))) as [Hin Hnin].
  eexists. exists (map_get (verts (sweep_all vt nurbss)) (hash (Nurbs.GetQl o l))).
  split_and!; [done| | |].
  - simpl. by rewrite list_lookup_fmap, Hj.
  - intros (i & v & Hm & Hi & Hid & Hkey)%Hin. unfold map_get. rewrite Hm. simpl.
    split; [lia|]. exists v. by rewrite Nat2Z.id, Hv.
  - intros Hm%Hnin. unfold map_get. by rewrite Hm.
Qed.

End Cells.

(** ** Which point a vertex stands for *)

Section FirstPoint.
Context {N : Type} `{!Nurbs.ops N}.
Implicit Types (nurbss : list N) (o : N) (doc : Msh.t).

Lemma first_with_key_snoc h xs x y :
  first_with_key h xs = Some y → first_with_key h (xs ++ [x]) = Some y.
Proof.
  unfold first_with_key. rewrite filter_app.
  destruct (filter _ xs) as [|y' ys]; [done|]. done.
Qed.

Lemma first_with_key_new xs x :
  hash x ∉ hash <$> xs → first_with_key (hash x) (xs ++ [x]) = Some x.
Proof.
  intros Hnew. unfold first_with_key. rewrite filter_app.
  assert (filter (λ y, hash y = hash x) xs = []) as ->.
  { induction xs as [|y ys IH]; [done|]. rewrite filter_cons, decide_False.
    - apply IH. intros Hin. apply Hnew. rewrite fmap_cons. by right.
    - intros Hy. apply Hnew. rewrite fmap_cons, Hy. by left. }
  simpl. rewrite filter_cons, decide_True by done. done.
Qed.

Lemma visit_tag vt s x :
  verts s !! hash x = None →
  visit vt s x = Sweep (printed s ++ [Vert.mk (vid s) (vertex_tag vt (hash x)) (coords x)])
                       (<[hash x := vid s]> (verts s)) (vid s + 1).
Proof.
  intros Hx. unfold visit, vertex_tag. rewrite Hx.
  destruct vt as [t|]; [|done]. by destruct (t !! hash x).
Qed.

Lemma swept_first vt xs v :
  v ∈ printed (foldl (visit vt) sweep0 xs) →
  ∃ x, first_with_key (Vert_key v) xs = Some x
       ∧ v = Vert.mk (Vert.Id v) (vertex_tag vt (hash x)) (coords x).
Proof.
  revert v. induction xs as [|x xs IH] using rev_ind; intros v.
  - by intros ?%elem_of_nil.
  - rewrite foldl_app. simpl. set (s := foldl (visit vt) sweep0 xs) in *.
    pose proof (swept_foldl vt xs) as Hs. fold s in Hs.
    destruct (verts s !! hash x) as [c|] eqn:Hx.
    + unfold visit. rewrite Hx. intros (y & Hy & Hv)%IH. exists y.
      split; [by apply first_with_key_snoc|done].
    + rewrite (visit_tag _ _ _ Hx). simpl.
      intros [(y & Hy & Hv)%IH| ->%list_elem_of_singleton]%elem_of_app.
      * exists y. split; [by apply first_with_key_snoc|done].
      * exists x. rewrite Vert_key_coords. split; [|done].
        apply first_with_key_new. intros Hin.
        apply (swept_seen _ _ _ _ Hs) in Hin as [? ?]. congruence.
Qed.

Lemma length_discover (ks : list Z) :
  length (discover [] ks) = size (list_to_set ks : gset Z).
Proof.
  rewrite <-(size_list_to_set (C:=gset Z) (discover [] ks))
    by (apply discover_NoDup, NoDup_nil_2).
  f_equal. apply set_eq. intros k. rewrite !elem_of_list_to_set, discover_elem.
  rewrite elem_of_nil. tauto.
Qed.

(** The document has one vertex for each key that occurs among the
    control points, and the vertex of a key has the coordinates and the
    weight of the first control point with that key in the order of the
    sweep; the later points with the key, whatever their coordinates and
    weights, leave no trace but the id. *)
Theorem first_point_wins dirout fnk nurbss vt ct doc :
  WriteMshD dirout fnk nurbss vt ct = Ok doc →
  length (Msh.verts doc) = size (list_to_set (hash <$> all_points nurbss) : gset Z)
  ∧ (∀ v, v ∈ Msh.verts doc →
       ∃ x, first_with_key (Vert_key v) (all_points nurbss) = Some x
            ∧ Vert.C v = coords x)
  ∧ (∀ y, y ∈ all_points nurbss →
       ∃ v x, v ∈ Msh.verts doc ∧ Vert_key v = hash y
              ∧ first_with_key (hash y) (all_points nurbss) = Some x
              ∧ Vert.C v = coords x).
Proof.
  intros Hdoc. destruct (WriteMshD_Ok _ _ _ _ _ _ Hdoc) as (Hv & _ & _).
  pose proof (swept_all vt nurbss) as Hs.
  assert (∀ v, v ∈ Msh.verts doc →
            ∃ x, first_with_key (Vert_key v) (all_points nurbss) = Some x
                 ∧ Vert.C v = coords x) as Hfirst.
  { intros v Hin. rewrite Hv, sweep_all_points in Hin.
    destruct (swept_first _ _ _ Hin) as (x & Hx & Hvx). exists x. split; [done|].
    by rewrite Hvx. }
  split_and!.
  - rewrite Hv, <-length_discover, <-(swept_keys _ _ _ Hs). by rewrite length_fmap.
  - done.
  - intros y Hy.
    destruct (swept_lookup vt nurbss (hash y)) as [Hin _].
    destruct Hin as (i & v & _ & Hi & _ & Hkey).
    { apply list_elem_of_fmap. eauto. }
    assert (v ∈ Msh.verts doc) as Hvin
      by (rewrite Hv; by eapply list_elem_of_lookup_2).
    destruct (Hfirst v Hvin) as (x & Hx & HC). exists v, x.
    rewrite <-Hkey. done.
Qed.

End FirstPoint.

(** ** The tag tables *)

Section Tags.
Context {N : Type} `{!Nurbs.ops N}.
Implicit Types (nurbss : list N) (o : N) (doc : Msh.t).

Lemma visit_untagged vt vt' s s' x :
  verts s = verts s' → vid s = vid s' →
  Vert_untagged <$> printed s = Vert_untagged <$> printed s' →
  verts (visit vt s x) = verts (visit vt' s' x)
  ∧ vid (visit vt s x) = vid (visit vt' s' x)
  ∧ Vert_untagged <$> printed (visit vt s x) = Vert_untagged <$> printed (visit vt' s' x).
Proof.
  intros Hm Hvid Hp. destruct (verts s !! hash x) as [c|] eqn:Hx.
  - unfold visit. rewrite <-Hm, Hx. done.
  - rewrite (visit_tag vt s x Hx), (visit_tag vt' s' x) by (by rewrite <-Hm).
    simpl. rewrite !fmap_app, Hm, Hvid, Hp. done.
Qed.

Lemma sweep_untagged vt vt' xs s s' :
  verts s = verts s' → vid s = vid s' →
  Vert_untagged <$> printed s = Vert_untagged <$> printed s' →
  verts (foldl (visit vt) s xs) = verts (foldl (visit vt') s' xs)
  ∧ Vert_untagged <$> printed (foldl (visit vt) s xs)
    = Vert_untagged <$> printed (foldl (visit vt') s' xs).
Proof.
  revert s s'. induction xs as [|x xs IH]; intros s s' Hm Hvid Hp; [done|].
  simpl. destruct (visit_untagged vt vt' s s' x Hm Hvid Hp) as (? & ? & ?).
  by apply IH.
Qed.

(** The tag tables, and the names of the directory and of the file, bear
    on the tags only: with other tables [WriteMshD] prints the same vertices
    but for their tags, the same ["nurbss"] list, and the same cells but for
    their tags. *)
Theorem tables_set_tags_only dirout fnk dirout' fnk' nurbss vt ct vt' ct' doc :
  WriteMshD dirout fnk nurbss vt ct = Ok doc →
  ∃ doc', WriteMshD dirout' fnk' nurbss vt' ct' = Ok doc'
    ∧ Vert_untagged <$> Msh.verts doc' = Vert_untagged <$> Msh.verts doc
    ∧ Msh.nurbss doc' = Msh.nurbss doc
    ∧ Cell_untagged <$> Msh.cells doc' = Cell_untagged <$> Msh.cells doc.
Proof.
  intros Hdoc.
  destruct (WriteMshD_total dirout' fnk' nurbss vt' ct') as [doc' Hdoc'].
  { intros o Ho. pose proof (WriteMshD_writable _ _ _ _ _ _ Hdoc) as Hall.
    rewrite Forall_forall in Hall. apply (Hall o Ho). }
  exists doc'. split; [done|].
  destruct (WriteMshD_Ok _ _ _ _ _ _ Hdoc) as (Hv & [Hnl Hn] & [Hcl Hc]).
  destruct (WriteMshD_Ok _ _ _ _ _ _ Hdoc') as (Hv' & [Hnl' Hn'] & [Hcl' Hc']).
  destruct (sweep_untagged vt' vt (all_points nurbss) sweep0 sweep0)
    as [Hm Hp]; [done..|].
  rewrite <-!sweep_all_points in Hm, Hp. split_and!.
  - by rewrite Hv, Hv'.
  - apply list_eq. intros k. destruct (nurbss !! k) as [o|] eqn:Hk.
    + destruct (Hn k o Hk) as (ks & Hks & ->).
      destruct (Hn' k o Hk) as (ks' & Hks' & ->).
      rewrite Hm. congruence.
    + apply lookup_ge_None in Hk.
      rewrite !(proj2 (lookup_ge_None _ _)) by lia. done.
  - apply list_eq. intros i. rewrite !list_lookup_fmap.
    destruct (decide (i < element_count nurbss)%nat) as [Hi|Hi].
    + destruct (cell_place_surj nurbss i Hi) as (k & o & eid & e & Hk & He & ->).
      destruct (Hc k o eid e Hk He) as (en & Hen & ->).
      destruct (Hc' k o eid e Hk He) as (en' & Hen' & ->).
      assert (en' = en) as -> by congruence. simpl. by rewrite Hm.
    + rewrite !(proj2 (lookup_ge_None _ _)) by lia. done.
Qed.

End Tags.

(** ** Appending shapes *)

Section Append.
Context {N : Type} `{!Nurbs.ops N}.
Implicit Types (nurbss : list N) (o : N) (doc : Msh.t).

Lemma visit_grows vt s x :
  (∃ more, printed (visit vt s x) = printed s ++ more)
  ∧ ∀ h c, verts s !! h = Some c → verts (visit vt s x) !! h = Some c.
Proof.
  destruct (verts s !! hash x) as [c|] eqn:Hx.
  - unfold visit. rewrite Hx. split; [exists []; by rewrite app_nil_r|done].
  - rewrite (visit_tag vt s x Hx). simpl. split; [by eexists|].
    intros h c Hh. rewrite lookup_insert_ne; [done|congruence].
Qed.

Lemma sweep_grows vt xs s :
  (∃ more, printed (foldl (visit vt) s xs) = printed s ++ more)
  ∧ ∀ h c, verts s !! h = Some c → verts (foldl (visit vt) s xs) !! h = Some c.
Proof.
  revert s. induction xs as [|x xs IH]; intros s; simpl.
  - split; [exists []; by rewrite app_nil_r|done].
  - destruct (visit_grows vt s x) as [[m1 Hm1] Hk1].
    destruct (IH (visit vt s x)) as [[m2 Hm2] Hk2]. split.
    + exists (m1 ++ m2). by rewrite Hm2, Hm1, <-app_assoc.
    + intros h c Hh. by apply Hk2, Hk1.
Qed.

Lemma sweep_all_app vt l1 l2 :
  sweep_all vt (l1 ++ l2) = foldl (visit vt) (sweep_all vt l1) (all_points l2).
Proof. unfold sweep_all. by rewrite foldl_app, sweep_from_points. Qed.

Lemma prefix_take {A} (l1 l2 : list A) :
  l1 = take (length l1) l2 → ∃ more, l2 = l1 ++ more.
Proof. intros Hl. exists (drop (length l1) l2). by rewrite Hl at 1; rewrite take_drop. Qed.

(** Shapes appended to the list do not change what is printed for the
    shapes before them: the vertices, the entries of ["nurbss"] and the
    cells (their vertex ids apart) of the shorter list come first in the
    document of the longer list, with the same ids. *)
Theorem appended_shapes_keep_ids dirout fnk l1 l2 vt ct doc :
  WriteMshD dirout fnk (l1 ++ l2) vt ct = Ok doc →
  ∃ doc1, WriteMshD dirout fnk l1 vt ct = Ok doc1
    ∧ (∃ more, Msh.verts doc = Msh.verts doc1 ++ more)
    ∧ (∃ more, Msh.nurbss doc = Msh.nurbss doc1 ++ more)
    ∧ (∃ more, Cell_frame <$> Msh.cells doc = (Cell_frame <$> Msh.cells doc1) ++ more).
Proof.
  intros Hdoc.
  destruct (WriteMshD_total dirout fnk l1 vt ct) as [doc1 Hdoc1].
  { intros o Ho. pose proof (WriteMshD_writable _ _ _ _ _ _ Hdoc) as Hall.
    rewrite Forall_forall in Hall. apply Hall, elem_of_app. by left. }
  exists doc1. split; [done|].
  destruct (WriteMshD_Ok _ _ _ _ _ _ Hdoc) as (Hv & [Hnl Hn] & [Hcl Hc]).
  destruct (WriteMshD_Ok _ _ _ _ _ _ Hdoc1) as (Hv1 & [Hnl1 Hn1] & [Hcl1 Hc1]).
  destruct (sweep_grows vt (all_points l2) (sweep_all vt l1)) as [Hpre Hkeep].
  rewrite <-sweep_all_app in Hpre, Hkeep.
  assert (element_count (l1 ++ l2) = (element_count l1 + element_count l2)%nat) as Hec
    by apply sum_list_with_app.
  split_and!.
  - by rewrite Hv, Hv1.
  - apply prefix_take, list_eq. intros k. rewrite Hnl1, lookup_take.
    case_decide as Hk.
    + destruct (lookup_lt_is_Some_2 l1 k Hk) as [o Ho].
      destruct (Hn1 k o Ho) as (ks1 & Hks1 & ->).
      destruct (Hn k o (lookup_app_l_Some _ _ _ _ Ho)) as (ks & Hks & ->).
      assert (ks1 = ks) as -> by congruence. unfold NurbsD_of. do 2 f_equal.
      unfold ctrls_of. apply list_fmap_ext. intros a ijk Ha.
      destruct (swept_lookup vt l1 (hash (GetQ3 o ijk))) as [Hin _].
      destruct Hin as (i & v & Hm & _).
      { apply list_elem_of_fmap. exists (GetQ3 o ijk). split; [done|].
        apply elem_of_all_points. exists o, ijk.
        split_and!; [by eapply list_elem_of_lookup_2|by eapply list_elem_of_lookup_2|done]. }
      unfold map_get. by rewrite Hm, (Hkeep _ _ Hm).
    + apply lookup_ge_None. lia.
  - apply prefix_take, list_eq. intros i.
    rewrite length_fmap, Hcl1, lookup_take, !list_lookup_fmap.
    case_decide as Hi.
    + destruct (cell_place_surj l1 i Hi) as (k & o & eid & e & Hk & He & ->).
      destruct (Hc1 k o eid e Hk He) as (en1 & Hen1 & ->).
      assert (cell_place (l1 ++ l2) k eid = cell_place l1 k eid) as Hplace.
      { unfold cell_place. rewrite take_app_le; [done|].
        apply lookup_lt_Some in Hk. lia. }
      destruct (Hc k o eid e (lookup_app_l_Some _ _ _ _ Hk) He) as (en & Hen & Hcell).
      rewrite Hplace in Hcell. by rewrite Hcell.
    + rewrite (proj2 (lookup_ge_None _ _)); [done|]. lia.
Qed.

End Append.

(** ** From the writer to the reader *)

Section Handover.
Context {N : Type} `{!Nurbs.ops N}.
Implicit Types (nurbss : list N) (o : N) (doc : Msh.t).

Lemma written_vertex dirout fnk nurbss vt ct doc i v :
  WriteMshD dirout fnk nurbss vt ct = Ok doc →
  Msh.verts doc !! i = Some v →
  Vert.Id v = Z.of_nat i ∧ length (Vert.C v) = 4%nat.
Proof.
  intros (Hv & _ & _)%WriteMshD_Ok Hi. rewrite Hv in Hi.
  pose proof (swept_all vt nurbss) as Hs. split; [by eapply swept_ids|].
  destruct (swept_from _ _ _ Hs v) as (x & _ & ->); [by eapply list_elem_of_lookup_2|].
  done.
Qed.

Lemma written_nurbs dirout fnk nurbss vt ct doc d :
  WriteMshD dirout fnk nurbss vt ct = Ok doc →
  d ∈ Msh.nurbss doc →
  ∃ k o ks, nurbss !! k = Some o ∧ knots_of o = Ok ks
            ∧ d = NurbsD_of (verts (sweep_all vt nurbss)) (Z.of_nat k) o ks.
Proof.
  intros (_ & [Hnl Hn] & _)%WriteMshD_Ok [k Hk]%list_elem_of_lookup.
  destruct (lookup_lt_is_Some_2 nurbss k) as [o Ho];
    [rewrite <-Hnl; by eapply lookup_lt_Some|].
  destruct (Hn k o Ho) as (ks & Hks & Hd). exists k, o, ks.
  split_and!; [done|done|congruence].
Qed.

(** In a document of [WriteMshD] the table that [ReadMsh] fills by position
    is the table by id: the four coordinates of every vertex are read
    without panic, the row at index [Id] is the row of that vertex, and every
    control id of every shape is the index of a row. *)
Theorem written_table_resolves dirout fnk nurbss vt ct doc :
  WriteMshD dirout fnk nurbss vt ct = Ok doc →
  mapM vertex_row (Msh.verts doc) = Ok (Vert.C <$> Msh.verts doc)
  ∧ (∀ v, v ∈ Msh.verts doc →
       0 ≤ Vert.Id v
       ∧ (Vert.C <$> Msh.verts doc) !! Z.to_nat (Vert.Id v) = Some (Vert.C v))
  ∧ (∀ d c, d ∈ Msh.nurbss doc → c ∈ NurbsD.Ctrls d →
       0 ≤ c < Z.of_nat (length (Msh.verts doc))
       ∧ ∃ v, Msh.verts doc !! Z.to_nat c = Some v ∧ Vert.Id v = c
              ∧ (Vert.C <$> Msh.verts doc) !! Z.to_nat c = Some (Vert.C v)).
Proof.
  intros Hdoc. split_and!.
  - apply mapM_result_Ok, Forall2_fmap_r, Forall_Forall2_diag, Forall_forall.
    intros v [i Hi]%list_elem_of_lookup.
    destruct (written_vertex _ _ _ _ _ _ _ _ Hdoc Hi) as [_ Hlen].
    rewrite vertex_row_eq, decide_True by lia. f_equal. apply take_ge. lia.
  - intros v [i Hi]%list_elem_of_lookup.
    destruct (written_vertex _ _ _ _ _ _ _ _ Hdoc Hi) as [-> _].
    split; [lia|]. by rewrite Nat2Z.id, list_lookup_fmap, Hi.
  - intros d c (k & o & ks & Hk & _ & ->)%(written_nurbs _ _ _ _ _ _ _ Hdoc).
    simpl. unfold ctrls_of. intros (ijk & -> & [a Ha]%list_elem_of_lookup)%list_elem_of_fmap.
    destruct (ctrl_assigned _ _ _ _ _ _ _ _ _ _ Hdoc Hk Ha)
      as (i & d' & v & Hm & _ & _ & Hi & Hid & _).
    unfold map_get. rewrite Hm. simpl. split.
    + apply lookup_lt_Some in Hi. lia.
    + exists v. by rewrite Nat2Z.id, list_lookup_fmap, Hi.
Qed.

Lemma forallb_false {A} (f : A → bool) l :
  forallb f l = false ↔ ∃ a, a ∈ l ∧ f a = false.
Proof.
  induction l as [|a l IH]; simpl.
  - split; [done|]. by intros (a & ?%elem_of_nil & _).
  - rewrite andb_false_iff, IH. split.
    + intros [Ha|(b & ? & ?)]; [exists a; split; [by left|done]|].
      exists b. split; [by right|done].
    + intros (b & [->|?]%elem_of_cons & ?); [by left|]. right. eauto.
Qed.

Lemma Msh_finite_false m :
  Msh_finite m = false ↔
    (∃ v c, v ∈ Msh.verts m ∧ c ∈ Vert.C v ∧ is_finite c = false)
    ∨ (∃ d kd t, d ∈ Msh.nurbss m ∧ kd ∈ NurbsD.Knots d ∧ t ∈ kd ∧ is_finite t = false).
Proof.
  unfold Msh_finite, all_finite. rewrite andb_false_iff, !forallb_false.
  setoid_rewrite forallb_false. setoid_rewrite forallb_false. split.
  - intros [(v & ? & c & ? & ?)|(d & ? & kd & ? & t & ? & ?)]; [left|right]; eauto 8.
  - intros [(v & c & ? & ? & ?)|(d & kd & t & ? & ? & ? & ?)]; [left|right]; eauto 8.
Qed.

(** The text of a written document whose coordinates and knots are all
    finite decodes to the lists ["verts"] and ["nurbss"] as they were
    printed: ids, tags, coordinates, dimensions, orders, knots and control
    ids. *)
Theorem written_text_decodes dirout fnk nurbss vt ct doc :
  WriteMshD dirout fnk nurbss vt ct = Ok doc →
  (∀ v c, v ∈ Msh.verts doc → c ∈ Vert.C v → is_finite c = true) →
  (∀ o ks kd t, o ∈ nurbss → knots_of o = Ok ks → kd ∈ ks → t ∈ kd →
     is_finite t = true) →
  Unmarshal (Msh_text doc) = Some (Data.mk (Msh.verts doc) (Msh.nurbss doc)).
Proof.
  intros Hdoc Hcs Hks. apply Unmarshal_Msh_text.
  destruct (Msh_finite doc) eqn:Hfin; [done|]. exfalso.
  apply Msh_finite_false in Hfin as [(v & c & Hv & Hc & Hf)|(d & kd & t & Hd & Hkd & Ht & Hf)].
  - rewrite (Hcs v c Hv Hc) in Hf. done.
  - apply (written_nurbs _ _ _ _ _ _ _ Hdoc) in Hd as (k & o & ks & Hk & Hko & ->).
    simpl in Hkd. rewrite (Hks o ks kd t) in Hf; try done.
    by eapply list_elem_of_lookup_2.
Qed.

(** A shape with a knot that is NaN or infinite, or a printed vertex with
    such a coordinate, makes a file that cannot be read back: [WriteMshD]
    prints it, and [ReadMsh] fails on that file with the decode failure. *)
Theorem nonfinite_unreadable (rf : string → option content) dirout fnk nurbss vt ct doc :
  WriteMshD dirout fnk nurbss vt ct = Ok doc →
  rf (fnk +:+ ".msh") = Some (Msh_text doc) →
  (∃ v c, v ∈ Msh.verts doc ∧ c ∈ Vert.C v ∧ is_finite c = false)
  ∨ (∃ o ks kd t, o ∈ nurbss ∧ knots_of o = Ok ks ∧ kd ∈ ks ∧ t ∈ kd
                  ∧ is_finite t = false) →
  ReadMsh (N:=N) rf fnk = Panic (DecodeFailure (fnk +:+ ".msh")).
Proof.
  intros Hdoc Hrf Hbad.
  assert (Msh_finite doc = false) as Hfin.
  { apply Msh_finite_false. destruct Hbad as [?|(o & ks & kd & t & Ho & Hks & Hkd & Ht & Hf)];
      [by left|right].
    apply list_elem_of_lookup in Ho as [k Hk].
    destruct (WriteMshD_Ok _ _ _ _ _ _ Hdoc) as (_ & [_ Hn] & _).
    destruct (Hn k o Hk) as (ks' & Hks' & Hd). assert (ks' = ks) as -> by congruence.
    eexists _, kd, t. split_and!; [by eapply list_elem_of_lookup_2|done..]. }
  unfold ReadMsh, Msh_text in *. rewrite Hrf, Hfin. done.
Qed.

Lemma field_values_skip field (o1 o2 : list (string * json)) k v :
  matches field k = false →
  field_values field (o1 ++ (k, v) :: o2) = field_values field (o1 ++ o2).
Proof.
  intros Hk. unfold field_values. rewrite !filter_app, filter_cons, decide_False; [done|].
  simpl. by rewrite Hk.
Qed.

(** [ReadMsh] reads the fields of [Data] only: a key of the file that
    matches neither [Verts] nor [Nurbss], as ["cells"], is passed over with
    its value, and the file is read as the file without it. *)
Theorem other_keys_passed_over (rf rf' : string → option content) fnk (js1 js2 : list (string * json)) k v :
  matches "Verts" k = false → matches "Nurbss" k = false →
  rf (fnk +:+ ".msh") = Some (Text (JObj (js1 ++ (k, v) :: js2))) →
  rf' (fnk +:+ ".msh") = Some (Text (JObj (js1 ++ js2))) →
  ReadMsh (N:=N) rf fnk = ReadMsh (N:=N) rf' fnk.
Proof.
  intros Hv Hn Hrf Hrf'. unfold ReadMsh. rewrite Hrf, Hrf'.
  unfold Unmarshal, decode_Data, decode_field.
  by rewrite !(field_values_skip _ _ _ _ _ Hv), !(field_values_skip _ _ _ _ _ Hn).
Qed.

(** [ReadMsh] returns objects exactly when the file exists, its text
    decodes, every vertex has four coordinates, and [Init] followed by
    [SetControl] succeeds for every entry of ["nurbss"]; it then returns one
    object per entry, in the order of the entries, all bound to the one
    table of the first four coordinates of the vertices. *)
Theorem ReadMsh_Ok_iff (rf : string → option content) fnk (os : list N) :
  ReadMsh rf fnk = Ok os ↔
    ∃ buf dat,
      rf (fnk +:+ ".msh") = Some buf ∧ Unmarshal buf = Some dat
      ∧ Forall (λ v, (4 ≤ length (Vert.C v))%nat) (Data.Verts dat)
      ∧ Forall2 (built ((λ v, take 4 (Vert.C v)) <$> Data.Verts dat))
                (Data.Nurbss dat) os.
Proof.
  unfold ReadMsh. split.
  - destruct (rf (fnk +:+ ".msh")) as [buf|] eqn:Hrf; [|done].
    destruct (Unmarshal buf) as [dat|] eqn:Hdat; [|done]. unfold read_data.
    intros (tbl & Htbl & Hos)%bind_Ok. exists buf, dat. split; [done|]. split; [done|].
    assert (Forall (λ v, (4 ≤ length (Vert.C v))%nat) (Data.Verts dat)) as Hfour.
    { apply Forall_forall. intros v [i Hi]%list_elem_of_lookup.
      destruct (table_rows _ _ Htbl) as [_ Hrows]. destruct (Hrows i v Hi). lia. }
    split; [done|].
    assert (tbl = (λ v, take 4 (Vert.C v)) <$> Data.Verts dat) as ->.
    { apply mapM_result_Ok in Htbl. apply list_eq. intros i.
      rewrite list_lookup_fmap. destruct (table_rows _ _ (proj2 (mapM_result_Ok _ _ _) Htbl))
        as [Hlen Hrows].
      destruct (Data.Verts dat !! i) as [v|] eqn:Hi; simpl.
      - by destruct (Hrows i v Hi).
      - apply lookup_ge_None. apply lookup_ge_None in Hi. lia. }
    apply mapM_result_Ok in Hos. eapply Forall2_impl; [done|].
    intros d o' (o0 & Hinit & Hset)%bind_Ok. by exists o0.
  - intros (buf & dat & -> & -> & Hfour & Hbuilt). unfold read_data.
    assert (mapM vertex_row (Data.Verts dat) =
            Ok ((λ v, take 4 (Vert.C v)) <$> Data.Verts dat)) as ->.
    { apply mapM_result_Ok, Forall2_fmap_r, Forall_Forall2_diag.
      eapply Forall_impl; [done|]. intros v Hv. simpl in Hv.
      by rewrite vertex_row_eq, decide_True. }
    simpl. apply mapM_result_Ok. eapply Forall2_impl; [done|].
    intros d o' (o0 & Hinit & Hset). unfold read_nurbs. by rewrite Hinit.
Qed.

End Handover.

(** ** Keys of points with a NaN *)

Section NaN.
Context {N : Type} `{!Nurbs.ops N}.

Lemma is_nan_SF x : is_nan x = true → Prim2SF x = S754_nan.
Proof.
  unfold is_nan. rewrite FloatAxioms.eqb_spec.
  destruct (Prim2SF x) as [s|s| |s m e] eqn:E; [by destruct s|by destruct s|done|].
  unfold SFeqb, SFcompare. rewrite Z.compare_refl.
  destruct s; rewrite ?Pos.compare_cont_refl; simpl; rewrite ?Pos.compare_refl; done.
Qed.

Lemma mul_nan x k : Prim2SF x = S754_nan → Prim2SF (x * k)%float = S754_nan.
Proof. intros Hx. rewrite FloatAxioms.mul_spec, Hx. reflexivity. Qed.

Lemma add_nan_l x y : Prim2SF x = S754_nan → Prim2SF (x + y)%float = S754_nan.
Proof. intros Hx. rewrite FloatAxioms.add_spec, Hx. reflexivity. Qed.

Lemma add_nan_r x y : Prim2SF y = S754_nan → Prim2SF (x + y)%float = S754_nan.
Proof. intros Hy. rewrite FloatAxioms.add_spec, Hy. by destruct (Prim2SF x). Qed.

Lemma HashPoint_nan x y z :
  is_nan x = true ∨ is_nan y = true ∨ is_nan z = true →
  Prim2SF (x * 10001 + y * 1000001 + z * 100000001)%float = S754_nan.
Proof.
  intros [Hx%is_nan_SF|[Hy%is_nan_SF|Hz%is_nan_SF]].
  - by apply add_nan_l, add_nan_l, mul_nan.
  - by apply add_nan_l, add_nan_r, mul_nan.
  - by apply add_nan_r, mul_nan.
Qed.

(** Control points with a NaN among their three coordinates all have the
    same key, the value of [int(NaN)], so that [WriteMshD] gives all of them
    one vertex id. *)
Theorem nan_points_merge dirout fnk (nurbss : list N) vt ct doc
    k1 o1 d1 a1 t1 c1 k2 o2 d2 a2 t2 c2 :
  WriteMshD dirout fnk nurbss vt ct = Ok doc →
  nurbss !! k1 = Some o1 → Msh.nurbss doc !! k1 = Some d1 →
  lattice o1 !! a1 = Some t1 → NurbsD.Ctrls d1 !! a1 = Some c1 →
  nurbss !! k2 = Some o2 → Msh.nurbss doc !! k2 = Some d2 →
  lattice o2 !! a2 = Some t2 → NurbsD.Ctrls d2 !! a2 = Some c2 →
  (let x := GetQ3 o1 t1 in
   is_nan (x0 x) = true ∨ is_nan (x1 x) = true ∨ is_nan (x2 x) = true) →
  (let y := GetQ3 o2 t2 in
   is_nan (x0 y) = true ∨ is_nan (x1 y) = true ∨ is_nan (x2 y) = true) →
  hash (GetQ3 o1 t1) = float_to_int nan
  ∧ hash (GetQ3 o2 t2) = float_to_int nan
  ∧ c1 = c2.
Proof.
  intros Hdoc Hk1 Hd1 Ha1 Hc1 Hk2 Hd2 Ha2 Hc2 Hx Hy. simpl in Hx, Hy.
  assert (∀ x : point,
            is_nan (x0 x) = true ∨ is_nan (x1 x) = true ∨ is_nan (x2 x) = true →
            hash x = float_to_int nan) as Hkey.
  { intros x Hn%HashPoint_nan. unfold hash, HashPoint, float_to_int, trunc.
    by rewrite Hn. }
  split; [by apply Hkey|]. split; [by apply Hkey|].
  destruct (ctrl_assigned _ _ _ _ _ _ _ _ _ _ Hdoc Hk1 Ha1)
    as (i1 & d1' & v1 & Hm1 & Hd1' & Hc1' & _).
  destruct (ctrl_assigned _ _ _ _ _ _ _ _ _ _ Hdoc Hk2 Ha2)
    as (i2 & d2' & v2 & Hm2 & Hd2' & Hc2' & _).
  rewrite (Hkey _ Hx) in Hm1. rewrite (Hkey _ Hy) in Hm2. congruence.
Qed.

End NaN.

(** ** The further properties at the sample shapes *)

Section MoreInstances.

Lemma segments_doc_finite :
  (∀ v c, v ∈ Msh.verts segments_doc → c ∈ Vert.C v → is_finite c = true)
  ∧ (∀ (o : Lattice.t) ks kd t, o ∈ segments → knots_of o = Ok ks → kd ∈ ks → t ∈ kd →
       is_finite t = true).
Proof.
  split.
  - intros v c Hv Hc. unfold segments_doc in Hv. simpl in Hv.
    repeat (apply elem_of_cons in Hv as [->|Hv]); [..|by apply elem_of_nil in Hv];
      simpl in Hc; repeat (apply elem_of_cons in Hc as [->|Hc]);
      try (by apply elem_of_nil in Hc); reflexivity.
  - intros o ks kd t Ho Hks Hkd Ht. unfold segments in Ho.
    repeat (apply elem_of_cons in Ho as [->|Ho]); [..|by apply elem_of_nil in Ho];
      vm_compute in Hks; injection Hks as <-;
      apply list_elem_of_singleton in Hkd as ->;
      repeat (apply elem_of_cons in Ht as [->|Ht]);
      try (by apply elem_of_nil in Ht); reflexivity.
Qed.

Lemma empty_lattice_void :
  lattice void_segment = []
  ∧ (∀ vs, ctrls_of vs void_segment = [])
  ∧ (∀ vt l1 l2, sweep_all vt (l1 ++ void_segment :: l2) = sweep_all vt (l1 ++ l2)).
Proof. apply (empty_lattice void_segment). left. vm_compute. discriminate. Defined.

Lemma unwritable_shape_panics_torn :
  (length (Nurbs.Enodes torn_segment) < length (Nurbs.Elements torn_segment))%nat
  ∧ (∃ e, WriteMshD "out" "torn" [torn_segment] None None = Panic e)
  ∧ ∀ doc, WriteMshD "out" "torn" [torn_segment] None None ≠ Ok doc.
Proof.
  assert (length (Nurbs.Enodes torn_segment) < length (Nurbs.Elements torn_segment))%nat
    as Hlt by (vm_compute; lia).
  split; [exact Hlt|].
  apply (unwritable_shape_panics "out" "torn" [torn_segment] None None torn_segment).
  - by left.
  - right. exact Hlt.
Defined.

Lemma cells_listed_segments :
  ∃ k o eid e en d,
    segments !! k = Some o ∧ Nurbs.Elements o !! eid = Some e
    ∧ Nurbs.Enodes o !! eid = Some en
    ∧ Msh.cells segments_doc !! cell_place segments k eid
        = Some (Cell.mk 1 5 1 0 18 [1; 2] [1; 2])
    ∧ Msh.nurbss segments_doc !! k = Some d
    ∧ NurbsD.Id d = Cell.nrb (Cell.mk 1 5 1 0 18 [1; 2] [1; 2])
    ∧ Cell.part (Cell.mk 1 5 1 0 18 [1; 2] [1; 2]) = 0
    ∧ Cell.geo (Cell.mk 1 5 1 0 18 [1; 2] [1; 2]) = 18
    ∧ Cell.span (Cell.mk 1 5 1 0 18 [1; 2] [1; 2]) = e
    ∧ length (Cell.verts (Cell.mk 1 5 1 0 18 [1; 2] [1; 2])) = length en.
Proof.
  apply (cells_listed "out" "segments" segments (Some segment_vtags) (Some segment_ctags)
           segments_doc (Cell.mk 1 5 1 0 18 [1; 2] [1; 2])).
  - vm_compute. reflexivity.
  - unfold segments_doc. simpl. apply elem_of_cons. right. apply elem_of_cons. by left.
Defined.

(** The third local node of the element of [stray_segment] is at
    [(9, 0, 0)], of key [90009], which is the key of no control point: the
    id printed for it is [0], the id of the vertex at [(3, 0, 0)]. *)
Lemma cell_vertex_ids_stray :
  hash (Nurbs.GetQl stray_segment 2) = 90009
  ∧ ∃ c id,
      Msh.cells stray_doc !! cell_place [stray_segment] 0 0 = Some c
      ∧ Cell.verts c !! 2%nat = Some id
      ∧ (hash (Nurbs.GetQl stray_segment 2) ∈ hash <$> all_points [stray_segment] →
           0 ≤ id ∧ ∃ v, Msh.verts stray_doc !! Z.to_nat id = Some v ∧ Vert.Id v = id
                         ∧ Vert_key v = hash (Nurbs.GetQl stray_segment 2))
      ∧ (hash (Nurbs.GetQl stray_segment 2) ∉ hash <$> all_points [stray_segment] →
           id = 0).
Proof.
  split; [vm_compute; reflexivity|].
  apply (cell_vertex_ids "out" "stray" [stray_segment] None None stray_doc
           0%nat stray_segment 0%nat [1; 2] [0; 1; 2] 2%nat 2);
    vm_compute; reflexivity.
Defined.

(** The one vertex of the short segment has the coordinates of its first
    end. *)
Lemma first_point_wins_short :
  length (Msh.verts short_doc)
    = size (list_to_set (hash <$> all_points [short_segment]) : gset Z)
  ∧ (∀ v, v ∈ Msh.verts short_doc →
       ∃ x, first_with_key (Vert_key v) (all_points [short_segment]) = Some x
            ∧ Vert.C v = coords x)
  ∧ (∀ y, y ∈ all_points [short_segment] →
       ∃ v x, v ∈ Msh.verts short_doc ∧ Vert_key v = hash y
              ∧ first_with_key (hash y) (all_points [short_segment]) = Some x
              ∧ Vert.C v = coords x).
Proof.
  apply (first_point_wins "out" "short" [short_segment] None None short_doc).
  vm_compute. reflexivity.
Defined.

Lemma tables_set_tags_only_segments :
  ∃ doc', WriteMshD "out" "plain" segments None None = Ok doc'
    ∧ Vert_untagged <$> Msh.verts doc' = Vert_untagged <$> Msh.verts segments_doc
    ∧ Msh.nurbss doc' = Msh.nurbss segments_doc
    ∧ Cell_untagged <$> Msh.cells doc' = Cell_untagged <$> Msh.cells segments_doc.
Proof.
  apply (tables_set_tags_only "out" "segments" "out" "plain" segments
           (Some segment_vtags) (Some segment_ctags) None None segments_doc).
  vm_compute. reflexivity.
Defined.

Lemma appended_shapes_keep_ids_segments :
  ∃ doc1, WriteMshD "out" "segments" [segment_a] (Some segment_vtags) (Some segment_ctags)
            = Ok doc1
    ∧ (∃ more, Msh.verts segments_doc = Msh.verts doc1 ++ more)
    ∧ (∃ more, Msh.nurbss segments_doc = Msh.nurbss doc1 ++ more)
    ∧ (∃ more, Cell_frame <$> Msh.cells segments_doc
                 = (Cell_frame <$> Msh.cells doc1) ++ more).
Proof.
  apply (appended_shapes_keep_ids "out" "segments" [segment_a] [segment_b]
           (Some segment_vtags) (Some segment_ctags) segments_doc).
  vm_compute. reflexivity.
Defined.

Lemma written_table_resolves_segments :
  mapM vertex_row (Msh.verts segments_doc) = Ok (Vert.C <$> Msh.verts segments_doc)
  ∧ (∀ v, v ∈ Msh.verts segments_doc →
       0 ≤ Vert.Id v
       ∧ (Vert.C <$> Msh.verts segments_doc) !! Z.to_nat (Vert.Id v) = Some (Vert.C v))
  ∧ (∀ d c, d ∈ Msh.nurbss segments_doc → c ∈ NurbsD.Ctrls d →
       0 ≤ c < Z.of_nat (length (Msh.verts segments_doc))
       ∧ ∃ v, Msh.verts segments_doc !! Z.to_nat c = Some v ∧ Vert.Id v = c
              ∧ (Vert.C <$> Msh.verts segments_doc) !! Z.to_nat c = Some (Vert.C v)).
Proof.
  apply (written_table_resolves (N:=Lattice.t) "out" "segments" segments
           (Some segment_vtags) (Some segment_ctags) segments_doc).
  vm_compute. reflexivity.
Defined.

Lemma written_text_decodes_segments :
  Unmarshal (Msh_text segments_doc)
    = Some (Data.mk (Msh.verts segments_doc) (Msh.nurbss segments_doc)).
Proof.
  apply (written_text_decodes (N:=Lattice.t) "out" "segments" segments
           (Some segment_vtags) (Some segment_ctags) segments_doc).
  - vm_compute. reflexivity.
  - apply segments_doc_finite.
  - apply segments_doc_finite.
Defined.

(** The segment with an infinite knot is written, and its file is not read
    back. *)
Lemma nonfinite_unreadable_open :
  WriteMshD "out" "open" [open_segment] None None = Ok open_doc
  ∧ ReadMsh (N:=Lattice.t) open_file "open" = Panic (DecodeFailure ("open" +:+ ".msh")).
Proof.
  assert (WriteMshD "out" "open" [open_segment] None None = Ok open_doc) as Hw
    by (vm_compute; reflexivity).
  split; [exact Hw|].
  apply (nonfinite_unreadable (N:=Lattice.t) open_file "out" "open" [open_segment]
           None None open_doc Hw); [reflexivity|].
  right. exists open_segment, [[0; 0; 1; infinity]%float], [0; 0; 1; infinity]%float,
    infinity.
  split_and!; [by left|vm_compute; reflexivity|by left| |reflexivity].
  do 3 right. by left.
Defined.

Lemma other_keys_passed_over_cells :
  ReadMsh (N:=Lattice.t) segments_file "segments"
    = ReadMsh (N:=Lattice.t) segments_file_no_cells "segments".
Proof.
  apply (other_keys_passed_over (N:=Lattice.t) segments_file segments_file_no_cells
           "segments" segments_json_no_cells [] "cells"
           (JArr (Cell_json <$> Msh.cells segments_doc)));
    vm_compute; reflexivity.
Defined.

Lemma nan_points_merge_segment :
  hash (GetQ3 nan_segment (0, 0, 0)) = float_to_int nan
  ∧ hash (GetQ3 nan_segment (1, 0, 0)) = float_to_int nan
  ∧ 0 = 0.
Proof.
  apply (nan_points_merge "out" "nan" [nan_segment] None None nan_doc
           0%nat nan_segment (NurbsD.mk 0 1 [1; 0; 0] [unit_knots] [0; 0]) 0%nat (0, 0, 0) 0
           0%nat nan_segment (NurbsD.mk 0 1 [1; 0; 0] [unit_knots] [0; 0]) 1%nat (1, 0, 0) 0);
    try (vm_compute; reflexivity).
  - left. vm_compute. reflexivity.
  - right. left. vm_compute. reflexivity.
Defined.

End MoreInstances.

(** ** Orders and knots in the document *)

Section Entries.
Context {N : Type} `{!Nurbs.ops N}.

(** Every entry of ["nurbss"] lists three orders, those of the directions
    beyond [gnd] included, and as many knot vectors as [gnd] says, none when
    [gnd] is zero or negative. *)
Theorem orders_three_knots_gnd dirout fnk (nurbss : list N) vt ct doc d :
  WriteMshD dirout fnk nurbss vt ct = Ok doc →
  d ∈ Msh.nurbss doc →
  length (NurbsD.Ords d) = 3%nat
  ∧ length (NurbsD.Knots d) = Z.to_nat (NurbsD.Gnd d)
  ∧ ∃ k o, nurbss !! k = Some o ∧ NurbsD.Id d = Z.of_nat k
           ∧ NurbsD.Gnd d = Nurbs.gnd o
           ∧ NurbsD.Ords d = [Nurbs.p o 0; Nurbs.p o 1; Nurbs.p o 2]
           ∧ ∀ a, 0 ≤ a < Nurbs.gnd o →
               ∃ bd, Nurbs.b o !! Z.to_nat a = Some bd
                     ∧ NurbsD.Knots d !! Z.to_nat a = Some (Bspline.T bd).
Proof.
  intros Hdoc (k & o & ks & Hk & Hks & ->)%(written_nurbs _ _ _ _ _ _ _ Hdoc).
  apply knots_of_lookup in Hks as [Hlen Hall]. simpl.
  split_and!; [done|done|]. exists k, o. by split_and!.
Qed.

End Entries.

(** ** The keys of the cells *)

Section CellKeys.
Context {N : Type} `{!Nurbs.ops N}.

Lemma plain_app s1 s2 : plain (s1 +:+ s2) = plain s1 && plain s2.
Proof. induction s1 as [|c s1 IH]; simpl; [done|]. by rewrite IH, andb_assoc. Qed.

Lemma plain_pretty_N_go x s : plain s = true → plain (pretty_N_go x s) = true.
Proof.
  revert s. induction (N.lt_wf_0 x) as [x _ IH]; intros s Hs.
  assert (x = 0 ∨ 0 < x)%N as [->|Hx] by lia; [by rewrite pretty_N_go_0|].
  rewrite pretty_N_go_step by done. apply IH; [by apply N.div_lt|].
  simpl. rewrite Hs, andb_true_r. unfold pretty_N_char. by repeat case_match.
Qed.

Lemma plain_pretty_Z (z : Z) : plain (pretty z) = true.
Proof.
  assert (∀ x : positive, plain (pretty x) = true) as Hpos.
  { intros x. unfold pretty, pretty_positive, pretty, pretty_N.
    case_decide; [done|]. by apply plain_pretty_N_go. }
  destruct z as [|x|x]; [done|apply Hpos|].
  unfold pretty, pretty_Z. rewrite plain_app. by rewrite Hpos.
Qed.

Lemma plain_split s1 s2 r1 r2 :
  plain s1 = true → plain s2 = true →
  s1 +:+ String (Ascii.ascii_of_N 95) r1 = s2 +:+ String (Ascii.ascii_of_N 95) r2 →
  s1 = s2 ∧ r1 = r2.
Proof.
  revert s2. induction s1 as [|c s1 IH]; intros [|c2 s2] H1 H2 Hk.
  - by injection Hk as ->.
  - exfalso. injection Hk as <- _. simpl in H2. done.
  - exfalso. injection Hk as -> _. simpl in H1. done.
  - injection Hk as -> Hr. simpl in H1, H2.
    apply andb_prop in H1 as [_ H1]. apply andb_prop in H2 as [_ H2].
    destruct (IH s2 H1 H2 Hr) as [-> ->]. done.
Qed.

Lemma cell_key_inj sid eid sid' eid' :
  cell_key sid eid = cell_key sid' eid' → sid = sid' ∧ eid = eid'.
Proof.
  unfold cell_key. intros Hk.
  change ("_" +:+ pretty eid) with (String (Ascii.ascii_of_N 95) (pretty eid)) in Hk.
  change ("_" +:+ pretty eid') with (String (Ascii.ascii_of_N 95) (pretty eid')) in Hk.
  apply plain_split in Hk as [Hs He]; [|apply plain_pretty_Z..].
  split; by apply (inj pretty).
Qed.

(** The keys ["sid_eid"] of different elements are different, so that a
    tag given for one element of one shape is printed for the cell of that
    element and for no other cell. *)
Theorem one_cell_tagged dirout fnk (nurbss : list N) vt sid eid tag doc k o a e :
  WriteMshD dirout fnk nurbss vt (one_cell_tag sid eid tag) = Ok doc →
  nurbss !! k = Some o → Nurbs.Elements o !! a = Some e →
  ∃ c, Msh.cells doc !! cell_place nurbss k a = Some c
       ∧ Cell.tag c = if decide (Z.of_nat k = sid ∧ Z.of_nat a = eid) then tag else -1.
Proof.
  intros Hdoc Hk He.
  destruct (WriteMshD_Ok _ _ _ _ _ _ Hdoc) as (_ & _ & [_ Hc]).
  destruct (Hc k o a e Hk He) as (en & _ & Hcell). eexists. split; [done|].
  simpl. unfold cell_tag, one_cell_tag. case_decide as Hd.
  - destruct Hd as [<- <-]. by rewrite lookup_singleton_eq.
  - rewrite lookup_singleton_ne; [done|]. intros [? ?]%cell_key_inj. by apply Hd.
Qed.

End CellKeys.

(** ** The failures of ReadMsh *)

Section Failures.
Context {N : Type} `{!Nurbs.ops N}.

Lemma mapM_result_first_Panic {A B} (f : A → result B) l e :
  mapM f l = Panic e ↔
    ∃ i a, l !! i = Some a ∧ f a = Panic e
           ∧ ∀ j b, (j < i)%nat → l !! j = Some b → ∃ r, f b = Ok r.
Proof.
  induction l as [|a l IH]; simpl.
  - split; [done|]. by intros (i & a & ? & _).
  - destruct (f a) as [r|e'] eqn:Ha; simpl.
    + destruct (mapM f l) as [k|e''] eqn:Hl; simpl.
      * split; [done|]. intros ([|i] & a' & Hi & Hf & Hbefore); simpl in *.
        -- congruence.
        -- assert (Ok k = Panic e :> result (list B)); [|done].
           apply IH. exists i, a'. split_and!; [done|done|].
           intros j b Hj Hb. apply (Hbefore (S j) b); [lia|done].
      * split.
        -- intros [= ->]. destruct (proj1 IH eq_refl) as (i & a' & Hi & Hf & Hbefore).
           exists (S i), a'. split_and!; [done|done|].
           intros [|j] b Hj Hb; simpl in *; [injection Hb as <-; eauto|].
           apply (Hbefore j b); [lia|done].
        -- intros ([|i] & a' & Hi & Hf & Hbefore); simpl in *; [congruence|].
           f_equal. assert (Panic e'' = Panic e :> result (list B)); [|congruence].
           apply IH. exists i, a'. split_and!; [done|done|].
           intros j b Hj Hb. apply (Hbefore (S j) b); [lia|done].
    + split.
      * intros [= ->]. exists 0%nat, a. split_and!; [done|done|]. intros; lia.
      * intros ([|i] & a' & Hi & Hf & Hbefore); simpl in *; [congruence|].
        destruct (Hbefore 0%nat a) as [r Hr]; [lia|done|congruence].
Qed.

(** [ReadMsh] fails in one of four ways, in this order: the file cannot be
    read (the failure names the file); its text does not decode (the failure
    names the file); some vertex has fewer than four coordinates (an index
    out of range, whatever the shapes are); or, with all vertices right,
    [Init] or [SetControl] panics for an entry of ["nurbss"], the entries
    before it having been built, and that panic is the failure. *)
Theorem ReadMsh_Panic_iff (rf : string → option content) fnk e :
  ReadMsh (N:=N) rf fnk = Panic e ↔
    (rf (fnk +:+ ".msh") = None ∧ e = ReadFailure (fnk +:+ ".msh"))
    ∨ (∃ buf, rf (fnk +:+ ".msh") = Some buf ∧ Unmarshal buf = None
              ∧ e = DecodeFailure (fnk +:+ ".msh"))
    ∨ (∃ buf dat, rf (fnk +:+ ".msh") = Some buf ∧ Unmarshal buf = Some dat
                  ∧ Exists (λ v, (length (Vert.C v) < 4)%nat) (Data.Verts dat)
                  ∧ e = IndexOutOfRange)
    ∨ (∃ buf dat i d,
         rf (fnk +:+ ".msh") = Some buf ∧ Unmarshal buf = Some dat
         ∧ Forall (λ v, (4 ≤ length (Vert.C v))%nat) (Data.Verts dat)
         ∧ Data.Nurbss dat !! i = Some d
         ∧ read_nurbs ((λ v, take 4 (Vert.C v)) <$> Data.Verts dat) d = Panic e
         ∧ ∀ j d', (j < i)%nat → Data.Nurbss dat !! j = Some d' →
             ∃ o', read_nurbs ((λ v, take 4 (Vert.C v)) <$> Data.Verts dat) d' = Ok o').
Proof.
  unfold ReadMsh.
  destruct (rf (fnk +:+ ".msh")) as [buf|] eqn:Hrf.
  2:{ split; [intros [= <-]; by left|].
      intros [[_ ->]|[(? & ? & _)|[(? & ? & ? & _)|(? & ? & ? & ? & ? & _)]]]; done. }
  destruct (Unmarshal buf) as [dat|] eqn:Hdat.
  2:{ split; [intros [= <-]; right; left; eauto|].
      intros [[? _]|[(? & ? & ? & ->)|[(? & ? & ? & ? & _)|(? & ? & ? & ? & ? & ? & _)]]];
        try done; congruence. }
  unfold read_data.
  destruct (decide (Forall (λ v, (4 ≤ length (Vert.C v))%nat) (Data.Verts dat)))
    as [Hfour|Hshort].
  - assert (mapM vertex_row (Data.Verts dat) =
            Ok ((λ v, take 4 (Vert.C v)) <$> Data.Verts dat)) as ->.
    { apply mapM_result_Ok, Forall2_fmap_r, Forall_Forall2_diag.
      eapply Forall_impl; [done|]. intros v Hv. simpl in Hv.
      by rewrite vertex_row_eq, decide_True. }
    simpl. rewrite mapM_result_first_Panic. split.
    + intros (i & d & Hi & Hd & Hbefore). do 3 right. exists buf, dat, i, d. done.
    + intros [[? _]|[(b' & Hb & Hu & _)|[(b' & dat' & Hb & Hd' & Hex & _)
                                        |(b' & dat' & i & d & Hb & Hd' & _ & Hi & Hr & Hbefore)]]].
      * done.
      * congruence.
      * exfalso. assert (dat' = dat) as -> by congruence.
        apply Exists_exists in Hex as (v & Hv & Hlt). rewrite Forall_forall in Hfour.
        specialize (Hfour v Hv). simpl in Hfour. lia.
      * assert (dat' = dat) as -> by congruence. eauto.
  - apply not_Forall_Exists in Hshort; [|apply _].
    assert (Exists (λ v, (length (Vert.C v) < 4)%nat) (Data.Verts dat)) as Hex.
    { eapply Exists_impl; [done|]. intros v Hv. simpl in Hv. lia. }
    rewrite (mapM_result_Panic _ _ IndexOutOfRange).
    + simpl. split.
      * intros [= <-]. right. right. left. exists buf, dat. done.
      * intros [[? _]|[(b' & Hb & Hu & _)|[(? & ? & _ & _ & _ & ->)
                                          |(b' & dat' & i & d & Hb & Hd' & Hfour & _)]]];
          [done|congruence|done|].
        exfalso. assert (dat' = dat) as -> by congruence.
        apply Exists_exists in Hex as (v & Hv & Hlt). rewrite Forall_forall in Hfour.
        specialize (Hfour v Hv). simpl in Hfour. lia.
    + eapply Exists_impl; [done|]. intros v Hv. simpl in Hv.
      rewrite vertex_row_eq, decide_False; [done|lia].
    + apply Forall_forall. intros v _. rewrite vertex_row_eq. case_decide; eauto.
Qed.

End Failures.

Section EntryInstances.

Lemma orders_three_knots_gnd_segments :
  let d := NurbsD.mk 1 1 [1; 0; 0] [unit_knots] [1; 2] in
  length (NurbsD.Ords d) = 3%nat
  ∧ length (NurbsD.Knots d) = Z.to_nat (NurbsD.Gnd d)
  ∧ ∃ k (o : Lattice.t), segments !! k = Some o ∧ NurbsD.Id d = Z.of_nat k
           ∧ NurbsD.Gnd d = Nurbs.gnd o
           ∧ NurbsD.Ords d = [Nurbs.p o 0; Nurbs.p o 1; Nurbs.p o 2]
           ∧ ∀ a, 0 ≤ a < Nurbs.gnd o →
               ∃ bd, Nurbs.b o !! Z.to_nat a = Some bd
                     ∧ NurbsD.Knots d !! Z.to_nat a = Some (Bspline.T bd).
Proof.
  apply (orders_three_knots_gnd "out" "segments" segments (Some segment_vtags)
           (Some segment_ctags) segments_doc (NurbsD.mk 1 1 [1; 0; 0] [unit_knots] [1; 2])).
  - vm_compute. reflexivity.
  - unfold segments_doc. simpl. apply elem_of_cons. right. apply elem_of_cons. by left.
Defined.

Lemma one_cell_tagged_segments :
  ∃ c, Msh.cells segments_doc !! cell_place segments 1 0 = Some c
       ∧ Cell.tag c = if decide (Z.of_nat 1 = 1 ∧ Z.of_nat 0 = 0) then 5 else -1.
Proof.
  apply (one_cell_tagged "out" "segments" segments (Some segment_vtags) 1 0 5
           segments_doc 1%nat segment_b 0%nat [1; 2]); vm_compute; reflexivity.
Defined.

End EntryInstances.
